(** * Invite email API: a shallow embedding of [server.js]

    The service is one Express application: a CORS stage, the JSON body
    parser, three static routes and the [POST /send-invite-email] handler,
    which validates the request, renders the invitation with
    [buildInviteBodies] and hands it to the SMTP transporter.

    Conventions of the embedding.
    - A JavaScript string is a [string]: a sequence of code units in the
      range U+0000..U+00FF.  [trim] and [toLowerCase] are ECMAScript's,
      restricted to that range.
    - A value read from the parsed JSON body is a [jsval]; reading a
      property that is not there gives [JUndefined].
    - [null] results of the helpers are [None].
    - A JavaScript exception is the [Throw] case of [result]. *)

From Stdlib Require Import Ascii String List Bool Arith Lia.
From stdpp Require Import base option list strings gmap.

Set Warnings "-register-all".

(** ** Strings *)

Module Str.

Definition code (c : ascii) : nat := nat_of_ascii c.

(** ECMAScript [WhiteSpace] and [LineTerminator] code points below
    U+0100: TAB, LF, VT, FF, CR, SP and NBSP. *)
Definition is_space (c : ascii) : bool :=
  let n := code c in
  ((9 <=? n) && (n <=? 13)) || (n =? 32) || (n =? 160).

Definition is_upper (c : ascii) : bool :=
  let n := code c in
  ((65 <=? n) && (n <=? 90))
  || ((192 <=? n) && (n <=? 214))
  || ((216 <=? n) && (n <=? 222)).

Definition lower_char (c : ascii) : ascii :=
  if is_upper c then ascii_of_nat (code c + 32) else c.

Fixpoint toLowerCase (s : string) : string :=
  match s with
  | EmptyString => EmptyString
  | String c r => String (lower_char c) (toLowerCase r)
  end.

Definition is_empty (s : string) : bool :=
  match s with EmptyString => true | String _ _ => false end.

Fixpoint trimStart (s : string) : string :=
  match s with
  | EmptyString => EmptyString
  | String c r => if is_space c then trimStart r else s
  end.

Fixpoint trimEnd (s : string) : string :=
  match s with
  | EmptyString => EmptyString
  | String c r =>
      let r' := trimEnd r in
      if is_space c && is_empty r' then EmptyString else String c r'
  end.

Definition trim (s : string) : string := trimEnd (trimStart s).

(** [s.includes(c)] for a one-character needle. *)
Fixpoint includes (s : string) (c : ascii) : bool :=
  match s with
  | EmptyString => false
  | String d r => Ascii.eqb d c || includes r c
  end.

(** [s.replace(/_/g, ' ')]. *)
Fixpoint replace_all (from to : ascii) (s : string) : string :=
  match s with
  | EmptyString => EmptyString
  | String c r =>
      String (if Ascii.eqb c from then to else c) (replace_all from to r)
  end.

(** [s.split(',')] for a one-character separator: never an empty list. *)
Fixpoint split (sep : ascii) (s : string) : list string :=
  match s with
  | EmptyString => [EmptyString]
  | String c r =>
      if Ascii.eqb c sep then EmptyString :: split sep r
      else match split sep r with
           | [] => [String c EmptyString]
           | w :: ws => String c w :: ws
           end
  end.

(** [parts.join(sep)] on strings. *)
Fixpoint join (sep : string) (parts : list string) : string :=
  match parts with
  | [] => EmptyString
  | [p] => p
  | p :: rest => p +:+ sep +:+ join sep rest
  end.

(** The longest prefix free of ['>'], and what follows it. *)
Fixpoint span_not_gt (s : string) : string * string :=
  match s with
  | EmptyString => (EmptyString, EmptyString)
  | String c r =>
      if Ascii.eqb c ">"%char then (EmptyString, s)
      else let '(a, b) := span_not_gt r in (String c a, b)
  end.

(** [s.match(/<([^>]+)>/)]: the first capture group of the leftmost
    match, if there is one.  At a ['<'] the greedy class takes every code
    unit up to the next ['>']; the attempt succeeds when it took at least
    one and a ['>'] follows, and the search moves one position on
    otherwise. *)
Fixpoint match_angle (s : string) : option string :=
  match s with
  | EmptyString => None
  | String c r =>
      if Ascii.eqb c "<"%char then
        match span_not_gt r with
        | (String a m, String _ _) => Some (String a m)
        | _ => match_angle r
        end
      else match_angle r
  end.

(** [hay] contains [needle] as a contiguous piece. *)
Definition occurs_in (needle hay : string) : Prop :=
  exists pre post, hay = pre +:+ needle +:+ post.

Definition LF : string := String (ascii_of_nat 10) EmptyString.
Definition DQ : string := String (ascii_of_nat 34) EmptyString.

End Str.

(** ** Values and exceptions *)

Inductive exn : Type :=
| TypeError.

Inductive result (A : Type) : Type :=
| Ok (a : A)
| Throw (e : exn).

Arguments Ok {A} a.
Arguments Throw {A} e.

#[global] Instance result_bind : MBind result :=
  fun A B k r =>
    match r with
    | Ok a => k a
    | Throw e => Throw e
    end.

(** What [JSON.parse] produces, and [undefined] for a property that is
    absent.  A number is kept as its canonical rendering, the string that
    [Number.prototype.toString] gives for it: the program only converts
    numbers to strings and tests them for zero, and the rendering of both
    zeros is ["0"]. *)
Inductive jsval : Type :=
| JUndefined
| JNull
| JBool (b : bool)
| JNum (rendering : string)
| JStr (s : string)
| JArr (items : list jsval)
| JObj (props : list (string * jsval)).

Fixpoint own_property (props : list (string * jsval)) (key : string)
  : option jsval :=
  match props with
  | [] => None
  | (k, v) :: rest => if String.eqb k key then Some v else own_property rest key
  end.

(** [ToBoolean]. *)
Definition truthy (v : jsval) : bool :=
  match v with
  | JUndefined | JNull => false
  | JBool b => b
  | JNum r => negb (String.eqb r "0")
  | JStr s => negb (Str.is_empty s)
  | JArr _ | JObj _ => true
  end.

Section Join.
Variable elem : jsval -> result string.

(** The loop of [Array.prototype.join]: [undefined] and [null] elements
    contribute the empty string. *)
Fixpoint join_values (sep : string) (items : list jsval) : result string :=
  match items with
  | [] => Ok ""
  | x :: rest =>
      e ← match x with
          | JUndefined | JNull => Ok ""
          | _ => elem x
          end;
      match rest with
      | [] => Ok e
      | _ => r ← join_values sep rest; Ok (e +:+ sep +:+ r)
      end
  end.
End Join.

(** [ToString].  An array goes through [Array.prototype.toString], that
    is [join] with a comma.  A plain object without a property of its own
    called [toString] goes through [Object.prototype.toString]; with one,
    the property is a JSON value, hence not callable, [valueOf] does not
    give a primitive either, and the conversion throws. *)
Fixpoint ToString (v : jsval) : result string :=
  match v with
  | JUndefined => Ok "undefined"
  | JNull => Ok "null"
  | JBool true => Ok "true"
  | JBool false => Ok "false"
  | JNum r => Ok r
  | JStr s => Ok s
  | JArr items => join_values ToString "," items
  | JObj props =>
      match own_property props "toString" with
      | Some _ => Throw TypeError
      | None => Ok "[object Object]"
      end
  end.

(** [a || b] on optional strings: the empty string is falsy. *)
Definition or_else (a b : option string) : option string :=
  match a with
  | Some s => if Str.is_empty s then b else a
  | None => b
  end.

Definition present (a : option string) : bool :=
  match a with
  | Some s => negb (Str.is_empty s)
  | None => false
  end.

(** ** Configuration

    [process.env] is a finite map from names to strings.  The constants of
    the module are gathered in one record; [load_config] is the derivation
    the module performs when it is loaded.  The connection parameters
    (host, port, secure flag) and the listening port only reach
    [nodemailer.createTransport] and [app.listen] and are left out. *)

Record Transport : Type := {
  auth_user : string;
  auth_pass : string;
}.

Record Config : Type := {
  SMTP_USER : option string;
  SMTP_PASS : option string;
  INVITE_FROM_NAME : string;
  INVITE_FROM_EMAIL : option string;
  INVITE_REPLY_TO : option string;
  INVITE_EMAIL_API_KEY : option string;
  INVITE_ALLOWED_ORIGINS : list string;
  allowAnyOrigin : bool;
  transporter : option Transport;
}.

Definition includes_string (l : list string) (x : string) : bool :=
  existsb (String.eqb x) l.

Definition parse_origins (raw : option string) : list string :=
  List.filter (fun o => negb (Str.is_empty o))
    (List.map Str.trim
       (Str.split ","%char (default "*" (or_else raw None)))).

Definition transporter_of (user pass : option string) : option Transport :=
  match user, pass with
  | Some u, Some p =>
      if negb (Str.is_empty u) && negb (Str.is_empty p)
      then Some {| auth_user := u; auth_pass := p |}
      else None
  | _, _ => None
  end.

Definition load_config (env : gmap string string) : Config :=
  let smtp_user := or_else (env !! "SMTP_USER") None in
  let smtp_pass := or_else (env !! "SMTP_PASS") None in
  let origins := parse_origins (env !! "INVITE_ALLOWED_ORIGINS") in
  {| SMTP_USER := smtp_user;
     SMTP_PASS := smtp_pass;
     INVITE_FROM_NAME :=
       default "Attendance Platform" (or_else (env !! "INVITE_FROM_NAME") None);
     INVITE_FROM_EMAIL := or_else (env !! "INVITE_FROM_EMAIL") smtp_user;
     INVITE_REPLY_TO := or_else (env !! "INVITE_REPLY_TO") None;
     INVITE_EMAIL_API_KEY := or_else (env !! "INVITE_EMAIL_API_KEY") None;
     INVITE_ALLOWED_ORIGINS := origins;
     allowAnyOrigin := includes_string origins "*";
     transporter := transporter_of smtp_user smtp_pass |}.

(** ** Requests and responses

    Header names are the keys of a map, in lower case, as Node stores
    them.  [route] is the handler Express's router selects for the method
    and path; [malformed] says that the JSON body parser rejects the body
    (not JSON, or over the size limit), in which case [reqBody] is never
    read.  The parser in its default strict mode leaves [req.body] unset,
    an object or an array. *)

Inductive Route : Type :=
| RouteOpenApi
| RouteDocs
| RouteHealth
| RouteSendInvite
| RouteNone.

Inductive ReqBody : Type :=
| BodyAbsent
| BodyObject (props : list (string * jsval))
| BodyArray (items : list jsval).

Record Request : Type := {
  method : string;
  route : Route;
  malformed : bool;
  reqHeaders : gmap string string;
  reqBody : ReqBody;
}.

Inductive ResBody : Type :=
| NoBody
| JsonBody (v : jsval).

Record Res : Type := {
  statusCode : nat;
  resHeaders : gmap string string;
  resBody : ResBody;
}.

(** [req.get(name)]: the lookup ignores the case of [name]. *)
Definition req_get (req : Request) (name : string) : option string :=
  reqHeaders req !! Str.toLowerCase name.

Definition setHeader (name value : string) (res : Res) : Res :=
  {| statusCode := statusCode res;
     resHeaders := <[Str.toLowerCase name := value]> (resHeaders res);
     resBody := resBody res |}.

Definition getHeader (name : string) (res : Res) : option string :=
  resHeaders res !! Str.toLowerCase name.

Definition removeHeader (name : string) (res : Res) : Res :=
  {| statusCode := statusCode res;
     resHeaders := delete (Str.toLowerCase name) (resHeaders res);
     resBody := resBody res |}.

(** [res.status(code)]. *)
Definition status (code : nat) (res : Res) : Res :=
  {| statusCode := code;
     resHeaders := resHeaders res;
     resBody := resBody res |}.

(** [res.json(v)]: the content type is set unless one is there already. *)
Definition json (v : jsval) (res : Res) : Res :=
  let res' :=
    if present (getHeader "Content-Type" res) then res
    else setHeader "Content-Type" "application/json; charset=utf-8" res in
  {| statusCode := statusCode res';
     resHeaders := resHeaders res';
     resBody := JsonBody v |}.

(** [res.sendStatus(204)]: a 204 goes out without body and without the
    headers that describe one. *)
Definition sendStatus204 (res : Res) : Res :=
  let res' :=
    removeHeader "Content-Type"
      (removeHeader "Content-Length" (removeHeader "Transfer-Encoding" res)) in
  {| statusCode := 204;
     resHeaders := resHeaders res';
     resBody := NoBody |}.

(** ** Helpers of the handler *)

Definition applyCors (cfg : Config) (req : Request) (res : Res) : Res :=
  let origin := reqHeaders req !! "origin" in
  let res1 :=
    if allowAnyOrigin cfg then setHeader "Access-Control-Allow-Origin" "*" res
    else
      match origin with
      | Some o =>
          if negb (Str.is_empty o) && includes_string (INVITE_ALLOWED_ORIGINS cfg) o
          then setHeader "Access-Control-Allow-Origin" o res
          else res
      | None => res
      end in
  setHeader "Access-Control-Allow-Methods" "GET, POST, OPTIONS"
    (setHeader "Access-Control-Allow-Headers" "Content-Type, X-API-Key"
       (setHeader "Vary" "Origin" res1)).

Definition extractEmail (value : jsval) : option string :=
  match value with
  | JStr v =>
      let trimmed := Str.trim v in
      if Str.is_empty trimmed then None
      else
        let email :=
          Str.toLowerCase
            (match Str.match_angle trimmed with
             | Some inner => inner
             | None => trimmed
             end) in
        if Str.includes email "@"%char then Some email else None
  | _ => None
  end.

Definition formatFrom (name : string) (email : option string) : option string :=
  match email with
  | None => None
  | Some e =>
      if Str.is_empty e then None
      else if negb (Str.is_empty name) then Some (name +:+ " <" +:+ e +:+ ">")
      else Some e
  end.

(** ** The invite composer *)

Record ComposerInput : Type := {
  firstName : jsval;
  lastName : jsval;
  role : jsval;
  organizationName : jsval;
  link : string;
}.

Record InviteBodies : Type := {
  subject : string;
  textBody : string;
  htmlBody : string;
}.

Definition recipientName_of (first last : jsval) : result string :=
  joined ← join_values ToString " " (List.filter truthy [first; last]);
  let name := Str.trim joined in
  Ok (if Str.is_empty name then "there" else name).

(** [(organizationName && organizationName.trim()) || 'Attendance Platform']:
    only a string has a [trim] method; calling it on any other truthy value
    throws. *)
Definition subjectOrg_of (org : jsval) : result string :=
  if truthy org then
    match org with
    | JStr s =>
        let name := Str.trim s in
        Ok (if Str.is_empty name then "Attendance Platform" else name)
    | _ => Throw TypeError
    end
  else Ok "Attendance Platform".

Definition roleLabel_of (r : jsval) : result string :=
  if truthy r then
    text ← ToString r;
    Ok (Str.replace_all "_"%char " "%char text)
  else Ok "member".

Definition subject_line (subjectOrg : string) : string :=
  "You're invited to " +:+ subjectOrg.

Definition text_template (recipientName subjectOrg roleLabel link : string)
  : string :=
  Str.join Str.LF
    [ "Hi " +:+ recipientName +:+ ",";
      "";
      "You've been invited to join " +:+ subjectOrg +:+ " as a "
        +:+ roleLabel +:+ ".";
      "Use the link below to set up your username and password:";
      link;
      "";
      "If you were not expecting this email, you can ignore it." ].

Definition html_template (recipientName subjectOrg roleLabel link : string)
  : string :=
  Str.LF +:+ "    <p>Hi " +:+ recipientName +:+ ",</p>" +:+ Str.LF
  +:+ "    <p>You've been invited to join <strong>" +:+ subjectOrg
  +:+ "</strong> as a <strong>" +:+ roleLabel +:+ "</strong>.</p>" +:+ Str.LF
  +:+ "    <p><a href=" +:+ Str.DQ +:+ link +:+ Str.DQ
  +:+ " target=" +:+ Str.DQ +:+ "_blank" +:+ Str.DQ
  +:+ " rel=" +:+ Str.DQ +:+ "noopener noreferrer" +:+ Str.DQ
  +:+ ">Click here to finish registration</a>.</p>" +:+ Str.LF
  +:+ "    <p>If you were not expecting this email, you can ignore it.</p>"
  +:+ Str.LF +:+ "  ".

Definition buildInviteBodies (input : ComposerInput) : result InviteBodies :=
  recipientName ← recipientName_of (firstName input) (lastName input);
  subjectOrg ← subjectOrg_of (organizationName input);
  roleLabel ← roleLabel_of (role input);
  Ok {| subject := subject_line subjectOrg;
        textBody := text_template recipientName subjectOrg roleLabel (link input);
        htmlBody := html_template recipientName subjectOrg roleLabel (link input) |}.

(** ** The mail dispatcher

    [transporter.sendMail] is the one call that leaves the process.  Its
    behaviour is a parameter: given the message it either returns a
    delivery receipt or throws.  What it throws is an [Error] carrying a
    message, or some other value. *)

Record Message : Type := {
  msg_from : option string;
  msg_to : string;
  msg_subject : string;
  msg_text : string;
  msg_html : string;
  msg_replyTo : option string;
}.

Inductive Thrown : Type :=
| ErrorObject (message : string)
| OtherValue.

Inductive SendResult : Type :=
| Info (messageId : jsval)
| Fails (t : Thrown).

Definition Dispatcher : Type := Transport -> Message -> SendResult.

(** ** The application *)

(** How the handling of one request ends: the service wrote the response;
    or it passed the response object on to code of Express or of the
    Swagger UI (error handler, 404, documentation pages); or the handler's
    promise was rejected before any response was written. *)
Inductive Outcome : Type :=
| Responded (res : Res)
| Delegated (res : Res)
| Rejected (e : exn) (res : Res).

(** [sent] lists the messages handed to the dispatcher, in order. *)
Record Run : Type := {
  outcome : Outcome;
  sent : list Message;
}.

Definition respond (res : Res) : Run :=
  {| outcome := Responded res; sent := [] |}.

Definition error_body (text : string) : jsval :=
  JObj [("error", JStr text)].

Definition payload_of (body : ReqBody) : jsval :=
  match body with
  | BodyAbsent => JObj []
  | BodyObject props => JObj props
  | BodyArray items => JArr items
  end.

(** [payload.key] for the keys the handler reads ([email], [link],
    [first_name], [last_name], [role], [organization_name], [from]): none
    of them is inherited from a prototype. *)
Definition field (payload : jsval) (key : string) : jsval :=
  match payload with
  | JObj props => default JUndefined (own_property props key)
  | _ => JUndefined
  end.

Definition link_of (value : jsval) : string :=
  match value with
  | JStr s => Str.trim s
  | _ => ""
  end.

(** The guard at the head of the handler. *)
Definition unauthorized (cfg : Config) (req : Request) : bool :=
  match INVITE_EMAIL_API_KEY cfg with
  | Some key =>
      if Str.is_empty key then false
      else
        match req_get req "x-api-key" with
        | Some providedKey =>
            Str.is_empty providedKey || negb (String.eqb providedKey key)
        | None => true
        end
  | None => false
  end.

(** The two ways out of the [try] block.  A successful send answers with
    [res.json] alone, so with the status the response object already has. *)
Definition delivery_response (result : SendResult) (res : Res) : Res :=
  match result with
  | Info messageId =>
      json (JObj [("delivered", JBool true);
                  ("messageId", if truthy messageId then messageId else JNull)])
        res
  | Fails t =>
      let message :=
        match t with
        | ErrorObject message => message
        | OtherValue => "Unable to send invitation email."
        end in
      json (JObj [("delivered", JBool false); ("reason", JStr message)])
        (status 502 res)
  end.

Definition send_invite_email (cfg : Config) (sendMail : Dispatcher)
    (req : Request) (res : Res) : Run :=
  let bad_request :=
    respond (json (error_body "Email and registration link are required.")
               (status 400 res)) in
  let no_credentials :=
    respond (json (error_body "SMTP credentials are not configured.")
               (status 500 res)) in
  if unauthorized cfg req then
    respond (json (error_body "Unauthorized") (status 401 res))
  else
    let payload := payload_of (reqBody req) in
    let email := extractEmail (field payload "email") in
    let link := link_of (field payload "link") in
    match email with
    | None => bad_request
    | Some to =>
        if Str.is_empty to || Str.is_empty link then bad_request
        else
          match transporter cfg with
          | None => no_credentials
          | Some transport =>
              if negb (present (SMTP_USER cfg)) || negb (present (SMTP_PASS cfg))
              then no_credentials
              else if negb (present (INVITE_FROM_EMAIL cfg)) then
                respond (json (error_body "INVITE_FROM_EMAIL is not configured.")
                           (status 500 res))
              else
                let fromAddress :=
                  formatFrom (INVITE_FROM_NAME cfg) (INVITE_FROM_EMAIL cfg) in
                let replyToAddress :=
                  or_else (or_else (INVITE_REPLY_TO cfg)
                             (extractEmail (field payload "from"))) None in
                match buildInviteBodies
                        {| firstName := field payload "first_name";
                           lastName := field payload "last_name";
                           role := field payload "role";
                           organizationName := field payload "organization_name";
                           link := link |} with
                | Throw e => {| outcome := Rejected e res; sent := [] |}
                | Ok bodies =>
                    let message :=
                      {| msg_from := fromAddress;
                         msg_to := to;
                         msg_subject := subject bodies;
                         msg_text := textBody bodies;
                         msg_html := htmlBody bodies;
                         msg_replyTo := or_else replyToAddress None |} in
                    {| outcome :=
                         Responded
                           (delivery_response (sendMail transport message) res);
                       sent := [message] |}
                end
          end
    end.

Section App.
(** The static OpenAPI description served at [/openapi.json]: a constant
    object whose content nothing below reads. *)
Variable swaggerSpec : jsval.

Definition app (cfg : Config) (sendMail : Dispatcher)
    (req : Request) (res : Res) : Run :=
  let res := applyCors cfg req res in
  if String.eqb (method req) "OPTIONS" then respond (sendStatus204 res)
  else if malformed req then {| outcome := Delegated res; sent := [] |}
  else
    match route req with
    | RouteOpenApi => respond (json swaggerSpec res)
    | RouteDocs => {| outcome := Delegated res; sent := [] |}
    | RouteHealth => respond (json (JObj [("ok", JBool true)]) res)
    | RouteSendInvite => send_invite_email cfg sendMail req res
    | RouteNone => {| outcome := Delegated res; sent := [] |}
    end.
End App.

(** ** Vocabulary of the properties *)

(** The response object an outcome carries. *)
Definition response_object (o : Outcome) : Res :=
  match o with
  | Responded res | Delegated res | Rejected _ res => res
  end.

(** A response object as Node creates it. *)
Definition fresh_res : Res :=
  {| statusCode := 200; resHeaders := ∅; resBody := NoBody |}.

(** The service answered with this status and this JSON body. *)
Definition answered (run : Run) (code : nat) (body : jsval) : Prop :=
  exists res,
    outcome run = Responded res
    /\ statusCode res = code
    /\ resBody res = JsonBody body.

Definition valid_email (body : ReqBody) : bool :=
  present (extractEmail (field (payload_of body) "email")).

Definition valid_link (body : ReqBody) : bool :=
  negb (Str.is_empty (link_of (field (payload_of body) "link"))).

(** The record the handler passes to the composer, and the message it
    hands to the dispatcher for the address [to] and the composed
    [bodies]. *)
Definition composer_input_of (body : ReqBody) : ComposerInput :=
  let payload := payload_of body in
  {| firstName := field payload "first_name";
     lastName := field payload "last_name";
     role := field payload "role";
     organizationName := field payload "organization_name";
     link := link_of (field payload "link") |}.

Definition message_of (cfg : Config) (body : ReqBody) (to : string)
    (bodies : InviteBodies) : Message :=
  {| msg_from := formatFrom (INVITE_FROM_NAME cfg) (INVITE_FROM_EMAIL cfg);
     msg_to := to;
     msg_subject := subject bodies;
     msg_text := textBody bodies;
     msg_html := htmlBody bodies;
     msg_replyTo :=
       or_else
         (or_else
            (or_else (INVITE_REPLY_TO cfg)
               (extractEmail (field (payload_of body) "from")))
            None)
         None |}.

(** The condition of the handler's credentials check. *)
Definition smtp_unconfigured (cfg : Config) : bool :=
  match transporter cfg with Some _ => false | None => true end
  || negb (present (SMTP_USER cfg))
  || negb (present (SMTP_PASS cfg)).

Definition bad_request_text : string :=
  "Email and registration link are required.".
Definition no_credentials_text : string :=
  "SMTP credentials are not configured.".
Definition no_sender_text : string :=
  "INVITE_FROM_EMAIL is not configured.".

Definition success_body (messageId : jsval) : jsval :=
  JObj [("delivered", JBool true);
        ("messageId", if truthy messageId then messageId else JNull)].

Definition failure_body (reason : string) : jsval :=
  JObj [("delivered", JBool false); ("reason", JStr reason)].

Fixpoint blank (s : string) : bool :=
  match s with
  | EmptyString => true
  | String c r => Str.is_space c && blank r
  end.

(** A value whose conversion to a string cannot throw: no object in it,
    at any depth of arrays, has a property of its own called [toString]. *)
Fixpoint convertible (v : jsval) : bool :=
  match v with
  | JArr items => forallb convertible items
  | JObj props =>
      match own_property props "toString" with
      | Some _ => false
      | None => true
      end
  | _ => true
  end.

Definition is_string (v : jsval) : bool :=
  match v with JStr _ => true | _ => false end.

(** The inputs on which the composer runs to its end. *)
Definition composable (input : ComposerInput) : bool :=
  convertible (firstName input)
  && convertible (lastName input)
  && (negb (truthy (organizationName input)) || is_string (organizationName input))
  && convertible (role input).

(** The normalisation of the recipient address in the words of the
    specification: take the bracketed portion if there is one, trim it,
    put it in lower case, and keep it when it contains ['@']. *)
Definition extractEmail_specified (value : jsval) : option string :=
  match value with
  | JStr v =>
      let email :=
        Str.toLowerCase
          (Str.trim
             (match Str.match_angle v with
              | Some inner => inner
              | None => v
              end)) in
      if Str.includes email "@"%char then Some email else None
  | _ => None
  end.

(** The role label in the words of the specification: the provided role
    with underscores replaced by spaces, ["member"] when the role is
    absent. *)
Definition roleLabel_specified (r : jsval) : result string :=
  match r with
  | JUndefined => Ok "member"
  | _ => text ← ToString r; Ok (Str.replace_all "_"%char " "%char text)
  end.

(** The organization name is missing, or is not a string that is
    non-empty after trimming. *)
Definition no_organization (org : jsval) : bool :=
  match org with
  | JStr s => Str.is_empty (Str.trim s)
  | _ => true
  end.

(** The handler as a decision table: the checks in the order the code
    makes them, and what each one answers. *)
Inductive handler_case (cfg : Config) (sendMail : Dispatcher)
    (req : Request) (res : Res) (run : Run) : Prop :=
| case_unauthorized :
    unauthorized cfg req = true ->
    run = respond (json (error_body "Unauthorized") (status 401 res)) ->
    handler_case cfg sendMail req res run
| case_bad_request :
    unauthorized cfg req = false ->
    valid_email (reqBody req) && valid_link (reqBody req) = false ->
    run = respond (json (error_body bad_request_text) (status 400 res)) ->
    handler_case cfg sendMail req res run
| case_no_credentials :
    unauthorized cfg req = false ->
    valid_email (reqBody req) && valid_link (reqBody req) = true ->
    smtp_unconfigured cfg = true ->
    run = respond (json (error_body no_credentials_text) (status 500 res)) ->
    handler_case cfg sendMail req res run
| case_no_sender :
    unauthorized cfg req = false ->
    valid_email (reqBody req) && valid_link (reqBody req) = true ->
    smtp_unconfigured cfg = false ->
    present (INVITE_FROM_EMAIL cfg) = false ->
    run = respond (json (error_body no_sender_text) (status 500 res)) ->
    handler_case cfg sendMail req res run
| case_rejected (e : exn) :
    unauthorized cfg req = false ->
    valid_email (reqBody req) && valid_link (reqBody req) = true ->
    smtp_unconfigured cfg = false ->
    present (INVITE_FROM_EMAIL cfg) = true ->
    buildInviteBodies (composer_input_of (reqBody req)) = Throw e ->
    run = {| outcome := Rejected e res; sent := [] |} ->
    handler_case cfg sendMail req res run
| case_dispatched (transport : Transport) (to : string)
    (bodies : InviteBodies) :
    unauthorized cfg req = false ->
    valid_email (reqBody req) && valid_link (reqBody req) = true ->
    smtp_unconfigured cfg = false ->
    present (INVITE_FROM_EMAIL cfg) = true ->
    transporter cfg = Some transport ->
    extractEmail (field (payload_of (reqBody req)) "email") = Some to ->
    buildInviteBodies (composer_input_of (reqBody req)) = Ok bodies ->
    run = {| outcome :=
               Responded
                 (delivery_response
                    (sendMail transport (message_of cfg (reqBody req) to bodies))
                    res);
             sent := [message_of cfg (reqBody req) to bodies] |} ->
    handler_case cfg sendMail req res run.

(** A string that does not begin with white space. *)
Definition starts_clean (s : string) : bool :=
  match s with
  | EmptyString => true
  | String c _ => negb (Str.is_space c)
  end.

(** ** Sample inputs *)

Definition team_lead_input : ComposerInput :=
  {| firstName := JStr "Ann";
     lastName := JStr "Lee";
     role := JStr "team_lead";
     organizationName := JStr "Acme";
     link := "https://app.test/register" |}.

Definition numeric_org_input : ComposerInput :=
  {| firstName := JUndefined;
     lastName := JUndefined;
     role := JUndefined;
     organizationName := JNum "42";
     link := "https://app.test/register" |}.

Definition spaced_address : jsval := JStr "Bob < BOB@EXAMPLE.com >".

Definition smtp_env : gmap string string :=
  <["SMTP_USER" := "mailer@app.test"]> (<["SMTP_PASS" := "hunter2"]> ∅).

Definition cfg_open : Config := load_config smtp_env.

Definition cfg_keyed : Config :=
  load_config (<["INVITE_EMAIL_API_KEY" := "s3cret"]> smtp_env).

Definition cfg_bare : Config := load_config ∅.

Definition cfg_keyed_bare : Config :=
  load_config (<["INVITE_EMAIL_API_KEY" := "s3cret"]> ∅).

(** A configuration record that [load_config] never produces: credentials
    and transporter are there, the sender address is not. *)
Definition cfg_no_sender : Config :=
  {| SMTP_USER := Some "mailer@app.test";
     SMTP_PASS := Some "hunter2";
     INVITE_FROM_NAME := "Attendance Platform";
     INVITE_FROM_EMAIL := None;
     INVITE_REPLY_TO := None;
     INVITE_EMAIL_API_KEY := None;
     INVITE_ALLOWED_ORIGINS := ["*"];
     allowAnyOrigin := true;
     transporter :=
       Some {| auth_user := "mailer@app.test"; auth_pass := "hunter2" |} |}.

Definition post (headers : gmap string string) (body : ReqBody) : Request :=
  {| method := "POST";
     route := RouteSendInvite;
     malformed := false;
     reqHeaders := headers;
     reqBody := body |}.

Definition invite_body : ReqBody :=
  BodyObject [("email", JStr "Ann Lee <ANN@Example.com>");
              ("link", JStr " https://app.test/register ");
              ("role", JStr "team_lead")].

Definition blank_body : ReqBody :=
  BodyObject [("email", JStr "   "); ("link", JStr "")].

Definition delivers : Dispatcher := fun _ _ => Info (JStr "abc123").

Definition refuses : Dispatcher :=
  fun _ _ => Fails (ErrorObject "connection refused").

(** The message the handler composes for [invite_body] under [cfg_open]. *)
Definition invite_message : Message :=
  {| msg_from := Some "Attendance Platform <mailer@app.test>";
     msg_to := "ann@example.com";
     msg_subject := "You're invited to Attendance Platform";
     msg_text :=
       text_template "there" "Attendance Platform" "team lead"
         "https://app.test/register";
     msg_html :=
       html_template "there" "Attendance Platform" "team lead"
         "https://app.test/register";
     msg_replyTo := None |}.

Definition with_key (key : string) : gmap string string :=
  {["x-api-key" := key]}.

(** The variant of [extractEmail] in the second copy of the server: an
    empty string is refused at once, the brackets are looked for in the
    untrimmed value, and the trimming comes after the extraction. *)
Definition extractEmail_v2 (value : jsval) : option string :=
  match value with
  | JStr v =>
      if Str.is_empty v then None
      else
        let email :=
          Str.toLowerCase
            (Str.trim
               (match Str.match_angle v with
                | Some inner => inner
                | None => v
                end)) in
        if Str.includes email "@"%char then Some email else None
  | _ => None
  end.

Definition cfg_listed : Config :=
  load_config
    (<["INVITE_ALLOWED_ORIGINS" := "https://a.test, https://b.test"]> smtp_env).

Definition with_origin (origin : string) : gmap string string :=
  {["origin" := origin]}.

Definition preflight (headers : gmap string string) : Request :=
  {| method := "OPTIONS";
     route := RouteSendInvite;
     malformed := true;
     reqHeaders := headers;
     reqBody := BodyAbsent |}.

Definition get_health : Request :=
  {| method := "GET";
     route := RouteHealth;
     malformed := false;
     reqHeaders := ∅;
     reqBody := BodyAbsent |}.

Definition reply_body : ReqBody :=
  BodyObject [("email", JStr "ann@example.com");
              ("link", JStr "  https://app.test/register ");
              ("from", JStr "Team Lead <LEAD@Example.com>")].

Definition team_lead_bodies : InviteBodies :=
  {| subject := subject_line "Acme";
     textBody :=
       text_template "Ann Lee" "Acme" "team lead" "https://app.test/register";
     htmlBody :=
       html_template "Ann Lee" "Acme" "team lead" "https://app.test/register" |}.

(** * Properties *)

#[local] Arguments String.append !_ _ : simpl nomatch.

(** ** Strings *)

Lemma append_assoc (a b c : string) : (a +:+ b) +:+ c = a +:+ b +:+ c.
Proof. induction a as [|x a IH]; simpl; [reflexivity | now rewrite IH]. Qed.

Lemma append_nil_r (a : string) : a +:+ "" = a.
Proof. induction a as [|x a IH]; simpl; [reflexivity | now rewrite IH]. Qed.

Lemma is_empty_true (s : string) : Str.is_empty s = true <-> s = "".
Proof. destruct s; simpl; split; congruence. Qed.

Lemma is_empty_false (s : string) : Str.is_empty s = false <-> s <> "".
Proof. destruct s; simpl; split; congruence. Qed.

Lemma occurs_in_intro (pre needle post hay : string) :
  hay = pre +:+ needle +:+ post -> Str.occurs_in needle hay.
Proof. intros ->. now exists pre, post. Qed.

Lemma trimStart_blank (s : string) : blank s = true -> Str.trimStart s = "".
Proof.
  induction s as [|c s IH]; simpl; [reflexivity |].
  intros [Hc Hs]%andb_prop. rewrite Hc. auto.
Qed.

Lemma trim_blank (s : string) : blank s = true -> Str.trim s = "".
Proof. intros H. unfold Str.trim. now rewrite trimStart_blank. Qed.

Lemma trimEnd_empty_blank (s : string) : Str.trimEnd s = "" -> blank s = true.
Proof.
  induction s as [|c s IH]; simpl; [reflexivity |].
  destruct (Str.is_space c); simpl; [| discriminate].
  destruct (Str.trimEnd s); simpl; [auto | discriminate].
Qed.

Lemma trimStart_blank_iff (s : string) :
  blank (Str.trimStart s) = blank s.
Proof.
  induction s as [|c s IH]; simpl; [reflexivity |].
  destruct (Str.is_space c) eqn:Hc; simpl; [exact IH | now rewrite Hc].
Qed.

(** [trim] gives the empty string exactly on the strings made of white
    space only. *)
Lemma trim_empty_iff (s : string) : Str.trim s = "" <-> blank s = true.
Proof.
  split; [| apply trim_blank].
  unfold Str.trim. intros H%trimEnd_empty_blank.
  now rewrite trimStart_blank_iff in H.
Qed.

Lemma includes_toLowerCase_at (s : string) :
  Str.includes (Str.toLowerCase s) "@"%char = Str.includes s "@"%char.
Proof.
  induction s as [|c s IH]; simpl; [reflexivity |].
  rewrite IH. f_equal.
  destruct c as [[] [] [] [] [] [] [] []]; reflexivity.
Qed.

(** ** Conversion to a string *)

Lemma jsval_nested_ind (P : jsval -> Prop) :
  P JUndefined -> P JNull -> (forall b, P (JBool b)) ->
  (forall r, P (JNum r)) -> (forall s, P (JStr s)) ->
  (forall items, Forall P items -> P (JArr items)) ->
  (forall props, P (JObj props)) ->
  forall v, P v.
Proof.
  intros Hu Hn Hb Hr Hs Ha Ho.
  fix IH 1. intros [| | b | r | s | items | props].
  - exact Hu.
  - exact Hn.
  - apply Hb.
  - apply Hr.
  - apply Hs.
  - apply Ha. induction items as [|x items IHl]; constructor.
    + apply IH.
    + exact IHl.
  - apply Ho.
Qed.

Lemma join_values_ok (sep : string) (items : list jsval) :
  Forall (fun v => convertible v = true -> exists s, ToString v = Ok s) items ->
  forallb convertible items = true ->
  exists s, join_values ToString sep items = Ok s.
Proof.
  induction 1 as [|x items Hx _ IH]; simpl; [eauto |].
  intros [Hcx Hci]%andb_prop.
  destruct (Hx Hcx) as [sx Hsx]. destruct (IH Hci) as [sr Hsr].
  assert (He : exists e, match x with
                         | JUndefined | JNull => Ok ""
                         | _ => ToString x
                         end = Ok e)
    by (destruct x; eauto).
  destruct He as [e ->]. simpl.
  destruct items; [eauto |]. rewrite Hsr. simpl. eauto.
Qed.

Lemma join_values_throw (sep : string) (items : list jsval) :
  Forall (fun v => convertible v = false -> ToString v = Throw TypeError) items ->
  forallb convertible items = false ->
  join_values ToString sep items = Throw TypeError.
Proof.
  induction 1 as [|x items Hx _ IH]; simpl; [discriminate |].
  intros Hc. destruct (convertible x) eqn:Hcx; simpl in Hc.
  - specialize (IH Hc).
    destruct (match x with
              | JUndefined | JNull => Ok ""
              | _ => ToString x
              end) as [e|[]]; simpl; [| reflexivity].
    destruct items; [discriminate |]. now rewrite IH.
  - specialize (Hx eq_refl).
    destruct x; try discriminate; rewrite Hx; reflexivity.
Qed.

(** [ToString] returns exactly on the convertible values, and a failure
    is a [TypeError]. *)
Lemma ToString_convertible (v : jsval) :
  (convertible v = true -> exists s, ToString v = Ok s)
  /\ (convertible v = false -> ToString v = Throw TypeError).
Proof.
  induction v as [| | b | r | s | items IH | props] using jsval_nested_ind;
    simpl; try (split; [intros _; eexists; reflexivity | discriminate]).
  - destruct b; simpl; (split; [intros _; eexists; reflexivity | discriminate]).
  - split.
    + apply join_values_ok. apply (Forall_impl _ _ _ IH). now intros ? [? _].
    + apply join_values_throw. apply (Forall_impl _ _ _ IH). now intros ? [_ ?].
  - destruct (own_property props "toString"); split;
      first [discriminate | intros _; eexists; reflexivity | reflexivity].
Qed.

Lemma falsy_convertible (v : jsval) : truthy v = false -> convertible v = true.
Proof. destruct v; simpl; congruence. Qed.

Lemma join_values_convertible (sep : string) (items : list jsval) :
  forallb convertible items = true ->
  exists s, join_values ToString sep items = Ok s.
Proof.
  apply join_values_ok. apply Forall_forall. intros v _.
  apply ToString_convertible.
Qed.

Lemma join_values_not_convertible (sep : string) (items : list jsval) :
  forallb convertible items = false ->
  join_values ToString sep items = Throw TypeError.
Proof.
  apply join_values_throw. apply Forall_forall. intros v _.
  apply ToString_convertible.
Qed.

(** ** The composer *)

Lemma replace_all_removes (from to : ascii) (s : string) :
  from <> to -> Str.includes (Str.replace_all from to s) from = false.
Proof.
  intros Hne. induction s as [|c s IH]; simpl; [reflexivity |].
  rewrite IH, orb_false_r.
  destruct (Ascii.eqb_spec c from) as [->|Hc].
  - apply Ascii.eqb_neq. congruence.
  - now apply Ascii.eqb_neq.
Qed.

Lemma replace_all_length (from to : ascii) (s : string) :
  String.length (Str.replace_all from to s) = String.length s.
Proof. induction s as [|c s IH]; simpl; [reflexivity | now rewrite IH]. Qed.

Lemma recipientName_of_ok (first last : jsval) :
  convertible first = true -> convertible last = true ->
  exists name, recipientName_of first last = Ok name.
Proof.
  intros Hf Hl. unfold recipientName_of.
  destruct (join_values_convertible " " (List.filter truthy [first; last]))
    as [joined Hj].
  - simpl. destruct (truthy first), (truthy last); simpl;
      rewrite ?Hf, ?Hl; reflexivity.
  - rewrite Hj. simpl. eauto.
Qed.

Lemma subjectOrg_of_falsy (org : jsval) :
  truthy org = false -> subjectOrg_of org = Ok "Attendance Platform".
Proof. intros H. unfold subjectOrg_of. now rewrite H. Qed.

Lemma subjectOrg_of_string (s : string) :
  subjectOrg_of (JStr s)
  = Ok (if Str.is_empty (Str.trim s) then "Attendance Platform" else Str.trim s).
Proof.
  unfold subjectOrg_of. simpl. destruct s as [|c s]; simpl; reflexivity.
Qed.

(** The organization label is computed exactly when the name is falsy or
    a string. *)
Lemma subjectOrg_of_ok (org : jsval) :
  negb (truthy org) || is_string org = true <->
  exists name, subjectOrg_of org = Ok name.
Proof.
  unfold subjectOrg_of.
  destruct org as [| | [] | r | s | items | props]; simpl;
    try (split; [eauto | reflexivity]);
    try (split; [discriminate | intros [? ?]; discriminate]).
  - destruct (negb (String.eqb r "0")); simpl;
      (split; [first [discriminate | eauto] | first [reflexivity | intros [? ?]; discriminate]]).
  - destruct (negb (Str.is_empty s)); split; eauto.
Qed.

Lemma roleLabel_of_ok (r : jsval) :
  convertible r = true -> exists label, roleLabel_of r = Ok label.
Proof.
  intros Hc. unfold roleLabel_of. destruct (truthy r); [| eauto].
  destruct (proj1 (ToString_convertible r) Hc) as [text ->]. simpl. eauto.
Qed.

Lemma text_template_has_role (name org label link : string) :
  Str.occurs_in label (text_template name org label link).
Proof.
  unfold text_template, Str.join.
  apply (occurs_in_intro
           ("Hi " +:+ name +:+ "," +:+ Str.LF +:+ "" +:+ Str.LF
            +:+ "You've been invited to join " +:+ org +:+ " as a ")
           label
           ("." +:+ Str.LF
            +:+ "Use the link below to set up your username and password:"
            +:+ Str.LF +:+ link +:+ Str.LF +:+ "" +:+ Str.LF
            +:+ "If you were not expecting this email, you can ignore it.")).
  rewrite !append_assoc. reflexivity.
Qed.

Lemma html_template_has_role (name org label link : string) :
  Str.occurs_in label (html_template name org label link).
Proof.
  unfold html_template.
  apply (occurs_in_intro
           (Str.LF +:+ "    <p>Hi " +:+ name +:+ ",</p>" +:+ Str.LF
            +:+ "    <p>You've been invited to join <strong>" +:+ org
            +:+ "</strong> as a <strong>")
           label
           ("</strong>.</p>" +:+ Str.LF
            +:+ "    <p><a href=" +:+ Str.DQ +:+ link +:+ Str.DQ
            +:+ " target=" +:+ Str.DQ +:+ "_blank" +:+ Str.DQ
            +:+ " rel=" +:+ Str.DQ +:+ "noopener noreferrer" +:+ Str.DQ
            +:+ ">Click here to finish registration</a>.</p>" +:+ Str.LF
            +:+ "    <p>If you were not expecting this email, you can ignore it.</p>"
            +:+ Str.LF +:+ "  ")).
  rewrite !append_assoc. reflexivity.
Qed.

Lemma recipientName_of_throw (first last : jsval) :
  convertible first && convertible last = false ->
  recipientName_of first last = Throw TypeError.
Proof.
  intros H. unfold recipientName_of.
  rewrite join_values_not_convertible; [reflexivity |].
  simpl.
  destruct (truthy first) eqn:Tf, (truthy last) eqn:Tl; simpl;
    rewrite ?(falsy_convertible _ Tf), ?(falsy_convertible _ Tl) in H;
    simpl in H; rewrite ?andb_true_r in *; try discriminate; exact H.
Qed.

Lemma roleLabel_of_throw (r : jsval) :
  convertible r = false -> roleLabel_of r = Throw TypeError.
Proof.
  intros Hc. unfold roleLabel_of.
  destruct (truthy r) eqn:Tr.
  - now rewrite (proj2 (ToString_convertible r) Hc).
  - rewrite (falsy_convertible _ Tr) in Hc. discriminate.
Qed.

(** The composer runs to its end exactly on the composable inputs. *)
Lemma buildInviteBodies_returns (input : ComposerInput) :
  composable input = true <-> exists bodies, buildInviteBodies input = Ok bodies.
Proof.
  unfold composable, buildInviteBodies. split.
  - intros [[[Hf Hl]%andb_prop Ho]%andb_prop Hr]%andb_prop.
    destruct (recipientName_of_ok _ _ Hf Hl) as [name ->].
    destruct (proj1 (subjectOrg_of_ok _) Ho) as [org ->].
    destruct (roleLabel_of_ok _ Hr) as [label ->].
    simpl. eauto.
  - intros [bodies H].
    destruct (convertible (firstName input) && convertible (lastName input))
      eqn:Hn.
    2:{ rewrite (recipientName_of_throw _ _ Hn) in H. discriminate. }
    destruct (recipientName_of (firstName input) (lastName input))
      as [name|]; [| discriminate].
    simpl in H |- *.
    destruct (subjectOrg_of (organizationName input)) as [org|] eqn:Ho;
      [| discriminate].
    rewrite (proj2 (subjectOrg_of_ok _) (ex_intro _ org Ho)).
    simpl in H |- *.
    destruct (convertible (role input)) eqn:Hr; [reflexivity |].
    rewrite (roleLabel_of_throw _ Hr) in H. discriminate.
Qed.

Lemma subject_defaults_without_organization (input : ComposerInput) :
  composable input = true ->
  truthy (organizationName input) = false
  \/ (exists s, organizationName input = JStr s /\ blank s = true) ->
  exists bodies,
    buildInviteBodies input = Ok bodies
    /\ subject bodies = "You're invited to Attendance Platform".
Proof.
  intros [bodies Hb]%buildInviteBodies_returns Horg.
  exists bodies. split; [exact Hb |].
  assert (Ho : subjectOrg_of (organizationName input) = Ok "Attendance Platform").
  { destruct Horg as [Hf | (s & -> & Hs)].
    - now apply subjectOrg_of_falsy.
    - rewrite subjectOrg_of_string, (trim_blank _ Hs). reflexivity. }
  unfold buildInviteBodies in Hb. rewrite Ho in Hb.
  destruct (recipientName_of _ _); [| discriminate].
  simpl in Hb. destruct (roleLabel_of _); [| discriminate].
  simpl in Hb. injection Hb as <-. reflexivity.
Qed.

(** C9, at the input where the code departs from it: an organization name
    that is the number 42 is not a non-empty string, so the subject should
    be the default one; the composer calls [trim] on the number and throws
    a [TypeError] instead of composing anything. *)
Theorem organization_number_throws :
  no_organization (organizationName numeric_org_input) = true
  /\ buildInviteBodies numeric_org_input = Throw TypeError.
Proof. split; reflexivity. Qed.

(** C10 as stated fails for a role that is present and empty: the label is
    ["member"], not the role with its underscores replaced. *)
Lemma role_label_of_empty_role :
  roleLabel_of (JStr "") = Ok "member"
  /\ roleLabel_specified (JStr "") = Ok ""
  /\ roleLabel_of (JStr "") <> roleLabel_specified (JStr "").
Proof. repeat split; try reflexivity. discriminate. Qed.

(** C10, amended: on every input on which the composer runs to its end,
    the role label is ["member"] when the role is absent or any other
    falsy value, and otherwise the role converted to a string with every
    underscore replaced by a space; the label stands in the plain-text body
    and in the HTML body, at the place the templates give it; the role
    ["team_lead"] gives the label ["team lead"]. *)
Theorem role_label_in_both_bodies (input : ComposerInput) :
  composable input = true ->
  exists bodies label name org,
    buildInviteBodies input = Ok bodies
    /\ roleLabel_of (role input) = Ok label
    /\ (truthy (role input) = false -> label = "member")
    /\ (truthy (role input) = true ->
        exists text, ToString (role input) = Ok text
                     /\ label = Str.replace_all "_"%char " "%char text)
    /\ (role input = JStr "team_lead" -> label = "team lead")
    /\ textBody bodies = text_template name org label (link input)
    /\ htmlBody bodies = html_template name org label (link input)
    /\ Str.occurs_in label (textBody bodies)
    /\ Str.occurs_in label (htmlBody bodies).
Proof.
  intros [bodies Hb]%buildInviteBodies_returns.
  unfold buildInviteBodies in Hb |- *.
  destruct (recipientName_of _ _) as [name|]; [| discriminate].
  simpl in Hb |- *.
  destruct (subjectOrg_of _) as [org|]; [| discriminate].
  simpl in Hb |- *.
  destruct (roleLabel_of (role input)) as [label|] eqn:Hl; [| discriminate].
  simpl in Hb |- *. injection Hb as <-.
  exists {| subject := subject_line org;
            textBody := text_template name org label (link input);
            htmlBody := html_template name org label (link input) |},
    label, name, org.
  simpl. do 2 (split; [reflexivity |]).
  split.
  { intros Hf. unfold roleLabel_of in Hl. rewrite Hf in Hl. congruence. }
  split.
  { intros Ht. unfold roleLabel_of in Hl. rewrite Ht in Hl.
    destruct (ToString (role input)) as [text|]; [| discriminate].
    exists text. split; [reflexivity |]. simpl in Hl. congruence. }
  split.
  { intros Hr. rewrite Hr in Hl. vm_compute in Hl. congruence. }
  do 2 (split; [reflexivity |]).
  split; [apply text_template_has_role | apply html_template_has_role].
Qed.

Lemma role_label_in_both_bodies_witness :
  exists bodies label name org,
    buildInviteBodies team_lead_input = Ok bodies
    /\ roleLabel_of (role team_lead_input) = Ok label
    /\ (truthy (role team_lead_input) = false -> label = "member")
    /\ (truthy (role team_lead_input) = true ->
        exists text, ToString (role team_lead_input) = Ok text
                     /\ label = Str.replace_all "_"%char " "%char text)
    /\ (role team_lead_input = JStr "team_lead" -> label = "team lead")
    /\ textBody bodies = text_template name org label (link team_lead_input)
    /\ htmlBody bodies = html_template name org label (link team_lead_input)
    /\ Str.occurs_in label (textBody bodies)
    /\ Str.occurs_in label (htmlBody bodies).
Proof. apply (role_label_in_both_bodies team_lead_input). reflexivity. Defined.

Example team_lead_label : roleLabel_of (JStr "team_lead") = Ok "team lead".
Proof. reflexivity. Qed.

(** ** The handler *)

Lemma or_else_present (a b : option string) :
  present b = true -> present (or_else a b) = true.
Proof.
  intros Hb. destruct a as [s|]; simpl; [| exact Hb].
  destruct (Str.is_empty s) eqn:Hs; simpl; [exact Hb | now rewrite Hs].
Qed.

Lemma or_else_none_present (a : option string) :
  present (or_else a None) = present a.
Proof.
  destruct a as [s|]; simpl; [| reflexivity].
  destruct (Str.is_empty s) eqn:Hs; simpl; [reflexivity | now rewrite Hs].
Qed.

Lemma answered_respond (res : Res) (code : nat) (body : jsval) :
  answered (respond (json body (status code res))) code body.
Proof.
  exists (json body (status code res)). repeat split.
  unfold json. simpl. destruct (present _); reflexivity.
Qed.

Lemma answered_unique (run : Run) (c1 c2 : nat) (b1 b2 : jsval) :
  answered run c1 b1 -> answered run c2 b2 -> c1 = c2 /\ b1 = b2.
Proof.
  intros (r1 & H1 & <- & B1) (r2 & H2 & <- & B2).
  rewrite H1 in H2. injection H2 as <-. split; congruence.
Qed.

(** The guard lets a request through exactly when no key is configured
    or the header carries the configured key. *)
Lemma unauthorized_false_iff (cfg : Config) (req : Request) :
  unauthorized cfg req = false <->
  present (INVITE_EMAIL_API_KEY cfg) = false
  \/ req_get req "x-api-key" = INVITE_EMAIL_API_KEY cfg.
Proof.
  unfold unauthorized.
  destruct (INVITE_EMAIL_API_KEY cfg) as [key|]; simpl; [| tauto].
  destruct (Str.is_empty key) eqn:Hk; simpl; [tauto |].
  destruct (req_get req "x-api-key") as [provided|].
  - destruct (String.eqb_spec provided key) as [->|Hne]; simpl.
    + rewrite Hk. tauto.
    + rewrite orb_true_r. split; [discriminate | intros [?|?]; congruence].
  - split; [discriminate | intros [?|?]; congruence].
Qed.

Lemma send_invite_email_cases (cfg : Config) (sendMail : Dispatcher)
    (req : Request) (res : Res) :
  handler_case cfg sendMail req res (send_invite_email cfg sendMail req res).
Proof.
  unfold send_invite_email.
  destruct (unauthorized cfg req) eqn:Hauth.
  { now apply case_unauthorized. }
  unfold valid_email, valid_link.
  destruct (extractEmail (field (payload_of (reqBody req)) "email"))
    as [to|] eqn:Hemail; simpl.
  2:{ now apply case_bad_request; unfold valid_email; rewrite ?Hemail. }
  destruct (Str.is_empty to) eqn:Hto; simpl.
  { apply case_bad_request; auto.
    unfold valid_email. now rewrite Hemail; simpl; rewrite Hto. }
  destruct (Str.is_empty (link_of (field (payload_of (reqBody req)) "link")))
    eqn:Hlink; simpl.
  { apply case_bad_request; auto.
    unfold valid_email, valid_link. rewrite Hemail, Hlink; simpl.
    now rewrite Hto. }
  assert (Hvalid : valid_email (reqBody req) && valid_link (reqBody req) = true).
  { unfold valid_email, valid_link. rewrite Hemail, Hlink; simpl.
    now rewrite Hto. }
  destruct (transporter cfg) as [transport|] eqn:Htr.
  2:{ apply case_no_credentials; auto. unfold smtp_unconfigured.
      now rewrite Htr. }
  destruct (negb (present (SMTP_USER cfg)) || negb (present (SMTP_PASS cfg)))
    eqn:Hcred.
  { apply case_no_credentials; auto. unfold smtp_unconfigured.
    rewrite Htr. simpl. exact Hcred. }
  assert (Hsmtp : smtp_unconfigured cfg = false).
  { unfold smtp_unconfigured. rewrite Htr. simpl. exact Hcred. }
  destruct (present (INVITE_FROM_EMAIL cfg)) eqn:Hfrom; simpl.
  2:{ now apply case_no_sender. }
  change (buildInviteBodies _)
    with (buildInviteBodies (composer_input_of (reqBody req))).
  destruct (buildInviteBodies (composer_input_of (reqBody req)))
    as [bodies|e] eqn:Hbodies.
  - now apply (case_dispatched _ _ _ _ _ transport to bodies).
  - now apply (case_rejected _ _ _ _ _ e).
Qed.

Lemma bodies_differ :
  error_body no_credentials_text <> error_body no_sender_text
  /\ error_body bad_request_text <> error_body no_sender_text
  /\ error_body "Unauthorized" <> error_body no_sender_text.
Proof. repeat split; discriminate. Qed.

Lemma unauthorized_true (cfg : Config) (req : Request) :
  present (INVITE_EMAIL_API_KEY cfg) = true ->
  req_get req "x-api-key" <> INVITE_EMAIL_API_KEY cfg ->
  unauthorized cfg req = true.
Proof.
  intros Hkey Hne. destruct (unauthorized cfg req) eqn:H; [reflexivity |].
  apply unauthorized_false_iff in H as [H|H]; congruence.
Qed.

Lemma unauthorized_run (cfg : Config) (sendMail : Dispatcher)
    (req : Request) (res : Res) :
  unauthorized cfg req = true ->
  send_invite_email cfg sendMail req res
  = respond (json (error_body "Unauthorized") (status 401 res)).
Proof. intros H. unfold send_invite_email. now rewrite H. Qed.



(** C1 as stated fails behind the API-key guard: with a key configured and
    no header, a body without email and link is answered 401, not 400. *)
Lemma blank_body_without_key_is_401 :
  valid_email blank_body && valid_link blank_body = false
  /\ answered
       (send_invite_email cfg_keyed delivers (post ∅ blank_body) fresh_res)
       401 (error_body "Unauthorized")
  /\ ~ answered
         (send_invite_email cfg_keyed delivers (post ∅ blank_body) fresh_res)
         400 (error_body bad_request_text).
Proof.
  assert (H : answered
                (send_invite_email cfg_keyed delivers (post ∅ blank_body)
                   fresh_res)
                401 (error_body "Unauthorized")).
  { rewrite unauthorized_run; [apply answered_respond | reflexivity]. }
  split; [reflexivity |]. split; [exact H |].
  intros H'. destruct (answered_unique _ _ _ _ _ H H') as [? _]. discriminate.
Qed.

(** C1, amended: for every request that passes the API-key guard and
    whose body lacks a valid email or a valid link, the handler answers 400
    with the payload saying that email and registration link are required,
    and the dispatcher is not called. *)
Theorem missing_email_or_link_is_400 (cfg : Config) (sendMail : Dispatcher)
    (req : Request) (res : Res) :
  unauthorized cfg req = false ->
  valid_email (reqBody req) && valid_link (reqBody req) = false ->
  answered (send_invite_email cfg sendMail req res) 400
    (error_body bad_request_text)
  /\ sent (send_invite_email cfg sendMail req res) = [].
Proof.
  intros Hauth Hbody.
  destruct (send_invite_email_cases cfg sendMail req res)
    as [H _ | _ _ -> | _ H | _ H | ? _ H | ? ? ? _ H]; try congruence.
  split; [apply answered_respond | reflexivity].
Qed.

Lemma missing_email_or_link_is_400_witness :
  answered (send_invite_email cfg_open delivers (post ∅ blank_body) fresh_res)
    400 (error_body bad_request_text)
  /\ sent (send_invite_email cfg_open delivers (post ∅ blank_body) fresh_res) = [].
Proof.
  apply (missing_email_or_link_is_400 cfg_open delivers (post ∅ blank_body)
           fresh_res); reflexivity.
Defined.

(** Empty and white-space-only strings are among the invalid fields. *)
Lemma blank_email_is_invalid (s : string) :
  blank s = true -> extractEmail (JStr s) = None.
Proof. intros H. unfold extractEmail. now rewrite (trim_blank _ H). Qed.

Lemma blank_link_is_invalid (s : string) :
  blank s = true -> link_of (JStr s) = "".
Proof. intros H. simpl. now apply trim_blank. Qed.

Lemma non_string_fields_are_invalid (v : jsval) :
  is_string v = false -> extractEmail v = None /\ link_of v = "".
Proof. destruct v; simpl; intros H; try discriminate; split; reflexivity. Qed.

(** C5 as stated fails behind the API-key guard: with a key configured and
    no header, a request with a valid email and link for which no
    transporter was constructed is answered 401, not 500. *)
Lemma unconfigured_without_key_is_401 :
  valid_email invite_body && valid_link invite_body = true
  /\ transporter cfg_keyed_bare = None
  /\ answered
       (send_invite_email cfg_keyed_bare delivers (post ∅ invite_body) fresh_res)
       401 (error_body "Unauthorized")
  /\ ~ answered
         (send_invite_email cfg_keyed_bare delivers (post ∅ invite_body)
            fresh_res)
         500 (error_body no_credentials_text).
Proof.
  assert (H : answered
                (send_invite_email cfg_keyed_bare delivers (post ∅ invite_body)
                   fresh_res)
                401 (error_body "Unauthorized")).
  { rewrite unauthorized_run; [apply answered_respond | reflexivity]. }
  do 2 (split; [reflexivity |]). split; [exact H |].
  intros H'. destruct (answered_unique _ _ _ _ _ H H') as [? _]. discriminate.
Qed.

(** C5, amended: for every request that passes the API-key guard with a
    valid email and link: when the credentials check fails (no transporter,
    or SMTP user or password missing) the answer is 500 with the payload
    naming the SMTP credentials and the dispatcher is not called; when the
    check passes and the sender email is empty the answer is 500 with the
    payload naming [INVITE_FROM_EMAIL]; the two payloads differ. *)
Theorem misconfiguration_is_500 (cfg : Config) (sendMail : Dispatcher)
    (req : Request) (res : Res) :
  unauthorized cfg req = false ->
  valid_email (reqBody req) && valid_link (reqBody req) = true ->
  (smtp_unconfigured cfg = true ->
   answered (send_invite_email cfg sendMail req res) 500
     (error_body no_credentials_text)
   /\ sent (send_invite_email cfg sendMail req res) = [])
  /\ (smtp_unconfigured cfg = false ->
      present (INVITE_FROM_EMAIL cfg) = false ->
      answered (send_invite_email cfg sendMail req res) 500
        (error_body no_sender_text)
      /\ sent (send_invite_email cfg sendMail req res) = [])
  /\ error_body no_credentials_text <> error_body no_sender_text.
Proof.
  intros Hauth Hvalid.
  destruct (send_invite_email_cases cfg sendMail req res)
    as [H _ | _ H _ | _ _ Hs -> | _ _ Hs Hf -> | ? _ _ Hs Hf _ _
       | ? ? ? _ _ Hs Hf _ _ _ _]; try congruence.
  - split; [intros _; split; [apply answered_respond | reflexivity] |].
    split; [congruence | discriminate].
  - split; [congruence |].
    split; [intros _ _; split; [apply answered_respond | reflexivity] |].
    discriminate.
  - split; [congruence |]. split; [congruence | discriminate].
  - split; [congruence |]. split; [congruence | discriminate].
Qed.

Lemma misconfiguration_is_500_witness :
  (smtp_unconfigured cfg_bare = true ->
   answered (send_invite_email cfg_bare delivers (post ∅ invite_body) fresh_res)
     500 (error_body no_credentials_text)
   /\ sent (send_invite_email cfg_bare delivers (post ∅ invite_body) fresh_res)
      = [])
  /\ (smtp_unconfigured cfg_bare = false ->
      present (INVITE_FROM_EMAIL cfg_bare) = false ->
      answered
        (send_invite_email cfg_bare delivers (post ∅ invite_body) fresh_res)
        500 (error_body no_sender_text)
      /\ sent (send_invite_email cfg_bare delivers (post ∅ invite_body) fresh_res)
         = [])
  /\ error_body no_credentials_text <> error_body no_sender_text.
Proof.
  apply (misconfiguration_is_500 cfg_bare delivers (post ∅ invite_body)
           fresh_res); reflexivity.
Defined.

(** The second branch of C5 at a configuration record that has credentials
    and no sender address. *)
Example no_sender_is_500 :
  answered
    (send_invite_email cfg_no_sender delivers (post ∅ invite_body) fresh_res)
    500 (error_body no_sender_text).
Proof.
  exists (json (error_body no_sender_text) (status 500 fresh_res)).
  repeat split.
Qed.

(** ** The configuration the module derives *)

Lemma load_config_from_email (env : gmap string string) :
  smtp_unconfigured (load_config env) = false ->
  present (INVITE_FROM_EMAIL (load_config env)) = true.
Proof.
  unfold smtp_unconfigured. simpl.
  intros [[_ Hu]%orb_false_elim _]%orb_false_elim.
  apply or_else_present. now apply negb_false_iff in Hu.
Qed.

(** A transporter exists exactly when both credentials are non-empty. *)
Lemma load_config_transporter (env : gmap string string) :
  match transporter (load_config env) with
  | Some _ => true
  | None => false
  end
  = present (SMTP_USER (load_config env)) && present (SMTP_PASS (load_config env)).
Proof.
  simpl. unfold transporter_of.
  destruct (or_else (env !! "SMTP_USER") None) as [u|],
           (or_else (env !! "SMTP_PASS") None) as [p|]; simpl;
    rewrite ?andb_false_r; try reflexivity.
  destruct (Str.is_empty u), (Str.is_empty p); reflexivity.
Qed.

(** C6: in a configuration derived by the module, passing the credentials
    check makes the sender email non-empty, so no request is ever answered
    with the payload [{ error: "INVITE_FROM_EMAIL is not configured." }]. *)
Theorem no_sender_branch_unreachable (env : gmap string string) :
  (smtp_unconfigured (load_config env) = false ->
   present (INVITE_FROM_EMAIL (load_config env)) = true)
  /\ forall (sendMail : Dispatcher) (req : Request) (res : Res) (code : nat),
      ~ answered (send_invite_email (load_config env) sendMail req res) code
          (error_body no_sender_text).
Proof.
  split; [apply load_config_from_email |].
  intros sendMail req res code Hans.
  destruct (send_invite_email_cases (load_config env) sendMail req res)
    as [_ H | _ _ H | _ _ _ H | _ _ Hs Hf _ | e _ _ _ _ _ H
       | transport to bodies _ _ _ _ _ _ _ H].
  - rewrite H in Hans.
    destruct (answered_unique _ _ _ _ _ (answered_respond _ _ _) Hans) as [_ ?].
    discriminate.
  - rewrite H in Hans.
    destruct (answered_unique _ _ _ _ _ (answered_respond _ _ _) Hans) as [_ ?].
    discriminate.
  - rewrite H in Hans.
    destruct (answered_unique _ _ _ _ _ (answered_respond _ _ _) Hans) as [_ ?].
    discriminate.
  - rewrite (load_config_from_email env Hs) in Hf. discriminate.
  - rewrite H in Hans. destruct Hans as (r & Hr & _). discriminate.
  - rewrite H in Hans. destruct Hans as (r & Hr & _ & Hb).
    simpl in Hr. injection Hr as <-.
    unfold delivery_response, json in Hb.
    destruct (sendMail transport _) as [mid|t]; simpl in Hb; discriminate.
Qed.

Lemma no_sender_branch_unreachable_witness :
  present (INVITE_FROM_EMAIL (load_config smtp_env)) = true.
Proof.
  apply (proj1 (no_sender_branch_unreachable smtp_env)). reflexivity.
Defined.

(** C7: without a configured API key the handler does not look at the
    headers: two requests with the same body get the same outcome, the same
    response and the same message handed to the dispatcher, whatever their
    [x-api-key] headers are. *)
Theorem header_irrelevant_without_key (cfg : Config) (sendMail : Dispatcher)
    (req1 req2 : Request) (res : Res) :
  present (INVITE_EMAIL_API_KEY cfg) = false ->
  reqBody req1 = reqBody req2 ->
  send_invite_email cfg sendMail req1 res
  = send_invite_email cfg sendMail req2 res.
Proof.
  intros Hkey Hbody.
  assert (H1 : unauthorized cfg req1 = false)
    by (apply unauthorized_false_iff; now left).
  assert (H2 : unauthorized cfg req2 = false)
    by (apply unauthorized_false_iff; now left).
  unfold send_invite_email. rewrite H1, H2, Hbody. reflexivity.
Qed.

Lemma header_irrelevant_without_key_witness :
  send_invite_email cfg_open delivers (post (with_key "alpha") invite_body)
    fresh_res
  = send_invite_email cfg_open delivers (post (with_key "beta") invite_body)
      fresh_res.
Proof.
  apply (header_irrelevant_without_key cfg_open delivers
           (post (with_key "alpha") invite_body)
           (post (with_key "beta") invite_body) fresh_res); reflexivity.
Defined.

(** With a key configured the header does matter. *)
Example header_matters_with_key :
  send_invite_email cfg_keyed delivers (post (with_key "s3cret") invite_body)
    fresh_res
  <> send_invite_email cfg_keyed delivers (post (with_key "beta") invite_body)
       fresh_res.
Proof. vm_compute. discriminate. Qed.

Lemma answered_delivery (result : SendResult) (res : Res) (message : Message) :
  statusCode res = 200 ->
  let run := {| outcome := Responded (delivery_response result res);
                sent := [message] |} in
  match result with
  | Info messageId => answered run 200 (success_body messageId)
  | Fails (ErrorObject text) => answered run 502 (failure_body text)
  | Fails OtherValue =>
      answered run 502 (failure_body "Unable to send invitation email.")
  end.
Proof.
  intros Hres run.
  destruct result as [messageId | [text|]];
    (eexists; split; [reflexivity |]);
    unfold delivery_response, json; simpl;
    destruct (present _); simpl; auto.
Qed.

(** C2: when the handler reaches the dispatch step, that is when it hands
    a message to the dispatcher: a receipt is answered 200 with
    [{ delivered: true, messageId }], the id being [null] when the receipt
    carries none; a thrown error is answered 502 with
    [{ delivered: false, reason }], the reason being the error's message (a
    thrown value that is not an error gets a fixed reason). *)
Theorem dispatch_outcome (cfg : Config) (sendMail : Dispatcher)
    (req : Request) (res : Res) (message : Message) :
  statusCode res = 200 ->
  sent (send_invite_email cfg sendMail req res) = [message] ->
  exists transport,
    transporter cfg = Some transport
    /\ match sendMail transport message with
       | Info messageId =>
           answered (send_invite_email cfg sendMail req res) 200
             (success_body messageId)
       | Fails (ErrorObject text) =>
           answered (send_invite_email cfg sendMail req res) 502
             (failure_body text)
       | Fails OtherValue =>
           answered (send_invite_email cfg sendMail req res) 502
             (failure_body "Unable to send invitation email.")
       end.
Proof.
  intros Hres Hsent.
  destruct (send_invite_email_cases cfg sendMail req res)
    as [_ H | _ _ H | _ _ _ H | _ _ _ _ H | e _ _ _ _ _ H
       | transport to bodies _ _ _ _ Htr _ _ H];
    rewrite H in Hsent |- *; try discriminate.
  injection Hsent as ->.
  exists transport. split; [exact Htr |].
  now apply answered_delivery.
Qed.

Lemma dispatch_outcome_witness :
  exists transport,
    transporter cfg_open = Some transport
    /\ match delivers transport invite_message with
       | Info messageId =>
           answered
             (send_invite_email cfg_open delivers (post ∅ invite_body) fresh_res)
             200 (success_body messageId)
       | Fails (ErrorObject text) =>
           answered
             (send_invite_email cfg_open delivers (post ∅ invite_body) fresh_res)
             502 (failure_body text)
       | Fails OtherValue =>
           answered
             (send_invite_email cfg_open delivers (post ∅ invite_body) fresh_res)
             502 (failure_body "Unable to send invitation email.")
       end.
Proof.
  apply (dispatch_outcome cfg_open delivers (post ∅ invite_body) fresh_res
           invite_message); reflexivity.
Defined.

Example delivered_abc123 :
  answered (send_invite_email cfg_open delivers (post ∅ invite_body) fresh_res)
    200 (JObj [("delivered", JBool true); ("messageId", JStr "abc123")]).
Proof. eexists. repeat split. Qed.

Example connection_refused :
  answered (send_invite_email cfg_open refuses (post ∅ invite_body) fresh_res)
    502 (JObj [("delivered", JBool false); ("reason", JStr "connection refused")]).
Proof. eexists. repeat split. Qed.

(** ** Headers *)

Lemma getHeader_setHeader_same (name value : string) (res : Res) :
  getHeader name (setHeader name value res) = Some value.
Proof. unfold getHeader, setHeader. simpl. apply lookup_insert_eq. Qed.

Lemma getHeader_setHeader_other (name other value : string) (res : Res) :
  Str.toLowerCase other <> Str.toLowerCase name ->
  getHeader name (setHeader other value res) = getHeader name res.
Proof.
  intros Hne. unfold getHeader, setHeader. simpl.
  now apply lookup_insert_ne.
Qed.

Lemma getHeader_removeHeader_other (name other : string) (res : Res) :
  Str.toLowerCase other <> Str.toLowerCase name ->
  getHeader name (removeHeader other res) = getHeader name res.
Proof.
  intros Hne. unfold getHeader, removeHeader. simpl.
  now apply lookup_delete_ne.
Qed.

Lemma getHeader_status (name : string) (code : nat) (res : Res) :
  getHeader name (status code res) = getHeader name res.
Proof. reflexivity. Qed.

Lemma getHeader_json (name : string) (v : jsval) (res : Res) :
  Str.toLowerCase "Content-Type" <> Str.toLowerCase name ->
  getHeader name (json v res) = getHeader name res.
Proof.
  intros Hne. unfold json.
  destruct (present (getHeader "Content-Type" res)); [reflexivity |].
  change (getHeader name
            (setHeader "Content-Type" "application/json; charset=utf-8" res)
          = getHeader name res).
  now apply getHeader_setHeader_other.
Qed.

Lemma getHeader_delivery_response (name : string) (result : SendResult)
    (res : Res) :
  Str.toLowerCase "Content-Type" <> Str.toLowerCase name ->
  getHeader name (delivery_response result res) = getHeader name res.
Proof.
  intros Hne. destruct result as [messageId|t]; simpl;
    now rewrite getHeader_json.
Qed.

(** The handler leaves every header but the content type as it found it. *)
Lemma send_invite_email_keeps_headers (name : string) (cfg : Config)
    (sendMail : Dispatcher) (req : Request) (res : Res) :
  Str.toLowerCase "Content-Type" <> Str.toLowerCase name ->
  getHeader name
    (response_object (outcome (send_invite_email cfg sendMail req res)))
  = getHeader name res.
Proof.
  intros Hne.
  destruct (send_invite_email_cases cfg sendMail req res)
    as [_ H | _ _ H | _ _ _ H | _ _ _ _ H | e _ _ _ _ _ H
       | transport to bodies _ _ _ _ _ _ _ H];
    rewrite H; simpl;
    rewrite ?getHeader_delivery_response, ?getHeader_json by exact Hne;
    reflexivity.
Qed.

Lemma applyCors_wildcard (cfg : Config) (req : Request) (res : Res) :
  allowAnyOrigin cfg = true ->
  getHeader "Access-Control-Allow-Origin" (applyCors cfg req res) = Some "*".
Proof.
  intros Hany. unfold applyCors. rewrite Hany.
  rewrite !getHeader_setHeader_other by (vm_compute; discriminate).
  apply getHeader_setHeader_same.
Qed.

Lemma applyCors_statusCode (cfg : Config) (req : Request) (res : Res) :
  statusCode (applyCors cfg req res) = statusCode res.
Proof.
  unfold applyCors. simpl.
  destruct (allowAnyOrigin cfg); [reflexivity |].
  destruct (reqHeaders req !! "origin") as [o|]; [| reflexivity].
  destruct (negb (Str.is_empty o) && includes_string _ o); reflexivity.
Qed.

(** The three fixed headers are on every response. *)
Lemma applyCors_fixed_headers (cfg : Config) (req : Request) (res : Res) :
  getHeader "Vary" (applyCors cfg req res) = Some "Origin"
  /\ getHeader "Access-Control-Allow-Headers" (applyCors cfg req res)
     = Some "Content-Type, X-API-Key"
  /\ getHeader "Access-Control-Allow-Methods" (applyCors cfg req res)
     = Some "GET, POST, OPTIONS".
Proof.
  unfold applyCors. repeat split.
  - rewrite !getHeader_setHeader_other by (vm_compute; discriminate).
    apply getHeader_setHeader_same.
  - rewrite getHeader_setHeader_other by (vm_compute; discriminate).
    apply getHeader_setHeader_same.
  - apply getHeader_setHeader_same.
Qed.

(** C8: in wildcard mode the response object of every request carries
    [Access-Control-Allow-Origin: *], whether the service answers itself
    (204, 200, 400, 401, 500, 502), passes the response on to the
    framework, or the handler fails. *)
Theorem wildcard_origin_on_every_response (swaggerSpec : jsval) (cfg : Config)
    (sendMail : Dispatcher) (req : Request) (res : Res) :
  allowAnyOrigin cfg = true ->
  getHeader "Access-Control-Allow-Origin"
    (response_object (outcome (app swaggerSpec cfg sendMail req res)))
  = Some "*".
Proof.
  intros Hany. unfold app.
  pose proof (applyCors_wildcard cfg req res Hany) as Hcors.
  destruct (String.eqb (method req) "OPTIONS").
  { simpl. unfold sendStatus204.
    change (getHeader "Access-Control-Allow-Origin"
              (removeHeader "Content-Type"
                 (removeHeader "Content-Length"
                    (removeHeader "Transfer-Encoding" (applyCors cfg req res))))
            = Some "*").
    now rewrite !getHeader_removeHeader_other by (vm_compute; discriminate). }
  destruct (malformed req); [exact Hcors |].
  destruct (route req); simpl; try exact Hcors.
  - now rewrite getHeader_json by (vm_compute; discriminate).
  - now rewrite getHeader_json by (vm_compute; discriminate).
  - now rewrite send_invite_email_keeps_headers by (vm_compute; discriminate).
Qed.

Lemma wildcard_origin_on_every_response_witness :
  getHeader "Access-Control-Allow-Origin"
    (response_object
       (outcome (app JNull cfg_keyed delivers (post ∅ blank_body) fresh_res)))
  = Some "*".
Proof.
  apply (wildcard_origin_on_every_response JNull cfg_keyed delivers
           (post ∅ blank_body) fresh_res).
  reflexivity.
Defined.

(** ** Address extraction *)

Lemma space_is_no_delimiter (c : ascii) :
  Str.is_space c = true ->
  Ascii.eqb c "<"%char = false
  /\ Ascii.eqb c ">"%char = false
  /\ Ascii.eqb c "@"%char = false.
Proof.
  destruct c as [[] [] [] [] [] [] [] []]; vm_compute; intros H;
    first [discriminate H | repeat split].
Qed.

Lemma is_space_lower_char (c : ascii) :
  Str.is_space (Str.lower_char c) = Str.is_space c.
Proof. destruct c as [[] [] [] [] [] [] [] []]; reflexivity. Qed.

Lemma is_empty_toLowerCase (s : string) :
  Str.is_empty (Str.toLowerCase s) = Str.is_empty s.
Proof. destruct s; reflexivity. Qed.

Lemma trimStart_toLowerCase (s : string) :
  Str.trimStart (Str.toLowerCase s) = Str.toLowerCase (Str.trimStart s).
Proof.
  induction s as [|c s IH]; [reflexivity |].
  cbn [Str.toLowerCase Str.trimStart]. rewrite is_space_lower_char.
  destruct (Str.is_space c); [exact IH | reflexivity].
Qed.

Lemma trimEnd_toLowerCase (s : string) :
  Str.trimEnd (Str.toLowerCase s) = Str.toLowerCase (Str.trimEnd s).
Proof.
  induction s as [|c s IH]; [reflexivity |].
  cbn [Str.toLowerCase Str.trimEnd].
  rewrite is_space_lower_char, IH, is_empty_toLowerCase.
  destruct (Str.is_space c && Str.is_empty (Str.trimEnd s)); reflexivity.
Qed.

Lemma trim_toLowerCase (s : string) :
  Str.trim (Str.toLowerCase s) = Str.toLowerCase (Str.trim s).
Proof. unfold Str.trim. now rewrite trimStart_toLowerCase, trimEnd_toLowerCase. Qed.

Lemma includes_at_trimStart (s : string) :
  Str.includes (Str.trimStart s) "@"%char = Str.includes s "@"%char.
Proof.
  induction s as [|c s IH]; [reflexivity |].
  cbn [Str.trimStart Str.includes].
  destruct (Str.is_space c) eqn:Hc; [| reflexivity].
  destruct (space_is_no_delimiter c Hc) as (_ & _ & ->). exact IH.
Qed.

Lemma includes_at_trimEnd (s : string) :
  Str.includes (Str.trimEnd s) "@"%char = Str.includes s "@"%char.
Proof.
  induction s as [|c s IH]; [reflexivity |].
  cbn [Str.trimEnd Str.includes].
  destruct (Str.is_space c) eqn:Hc; simpl.
  - destruct (space_is_no_delimiter c Hc) as (_ & _ & Hat).
    destruct (Str.trimEnd s) eqn:Ht; simpl in *.
    + now rewrite Hat, <- IH.
    + now rewrite Hat, <- IH.
  - now rewrite IH.
Qed.

Lemma includes_at_trim (s : string) :
  Str.includes (Str.trim s) "@"%char = Str.includes s "@"%char.
Proof. unfold Str.trim. now rewrite includes_at_trimEnd, includes_at_trimStart. Qed.

Lemma trimEnd_idempotent (s : string) :
  Str.trimEnd (Str.trimEnd s) = Str.trimEnd s.
Proof.
  induction s as [|c s IH]; [reflexivity |].
  cbn [Str.trimEnd].
  destruct (Str.is_space c && Str.is_empty (Str.trimEnd s)) eqn:H;
    [reflexivity |].
  cbn [Str.trimEnd]. now rewrite IH, H.
Qed.

Lemma trimStart_starts_clean (s : string) : starts_clean (Str.trimStart s) = true.
Proof.
  induction s as [|c s IH]; [reflexivity |].
  cbn [Str.trimStart]. destruct (Str.is_space c) eqn:Hc; [exact IH |].
  simpl. now rewrite Hc.
Qed.

Lemma trimStart_of_clean (s : string) :
  starts_clean s = true -> Str.trimStart s = s.
Proof.
  destruct s as [|c s]; [reflexivity |]. simpl.
  now intros ->%negb_true_iff.
Qed.

Lemma trimEnd_starts_clean (s : string) :
  starts_clean s = true -> starts_clean (Str.trimEnd s) = true.
Proof.
  destruct s as [|c s]; [reflexivity |]. simpl.
  intros H. pose proof H as ->%negb_true_iff. simpl. exact H.
Qed.

Lemma trim_idempotent (s : string) : Str.trim (Str.trim s) = Str.trim s.
Proof.
  unfold Str.trim.
  rewrite (trimStart_of_clean (Str.trimEnd (Str.trimStart s))).
  - apply trimEnd_idempotent.
  - apply trimEnd_starts_clean, trimStart_starts_clean.
Qed.

Lemma match_angle_trimStart (s : string) :
  Str.match_angle (Str.trimStart s) = Str.match_angle s.
Proof.
  induction s as [|c s IH]; [reflexivity |].
  cbn [Str.trimStart]. destruct (Str.is_space c) eqn:Hc; [| reflexivity].
  cbn [Str.match_angle].
  destruct (space_is_no_delimiter c Hc) as (-> & _ & _). exact IH.
Qed.

Lemma span_not_gt_whole (s a : string) :
  Str.span_not_gt s = (a, "") -> a = s.
Proof.
  revert a. induction s as [|c s IH]; intros a; cbn [Str.span_not_gt].
  - now intros [= <-].
  - destruct (Ascii.eqb c ">"); [discriminate |].
    destruct (Str.span_not_gt s) as [a0 b0].
    intros [= <- ->]. now rewrite (IH a0 eq_refl).
Qed.

(** Trimming the end cuts inside the part after the first ['>'], or inside
    the prefix when there is no ['>']. *)
Lemma span_not_gt_trimEnd (s : string) :
  Str.span_not_gt (Str.trimEnd s)
  = match Str.span_not_gt s with
    | (a, EmptyString) => (Str.trimEnd a, EmptyString)
    | (a, String g b) => (a, String g (Str.trimEnd b))
    end.
Proof.
  induction s as [|c s IH]; [reflexivity |].
  cbn [Str.trimEnd Str.span_not_gt].
  destruct (Ascii.eqb c ">") eqn:Hgt.
  - destruct (Str.is_space c) eqn:Hc.
    + destruct (space_is_no_delimiter c Hc) as (_ & H & _). congruence.
    + simpl. now rewrite Hgt.
  - destruct (Str.span_not_gt s) as [a0 b0] eqn:Hspan.
    destruct b0 as [|g b].
    + apply span_not_gt_whole in Hspan as ->.
      cbn [Str.trimEnd].
      destruct (Str.is_space c && Str.is_empty (Str.trimEnd s)); [reflexivity |].
      cbn [Str.span_not_gt]. now rewrite Hgt, IH.
    + assert (Hne : Str.is_empty (Str.trimEnd s) = false).
      { destruct (Str.trimEnd s); [discriminate IH | reflexivity]. }
      rewrite Hne, andb_false_r.
      cbn [Str.span_not_gt]. now rewrite Hgt, IH.
Qed.

Lemma match_angle_trimEnd (s : string) :
  Str.match_angle (Str.trimEnd s) = Str.match_angle s.
Proof.
  induction s as [|c s IH]; [reflexivity |].
  cbn [Str.trimEnd].
  destruct (Str.is_space c && Str.is_empty (Str.trimEnd s)) eqn:Hcond.
  - apply andb_prop in Hcond as [Hc He].
    cbn [Str.match_angle].
    destruct (space_is_no_delimiter c Hc) as (-> & _ & _).
    rewrite <- IH. apply is_empty_true in He. now rewrite He.
  - cbn [Str.match_angle]. destruct (Ascii.eqb c "<"); [| exact IH].
    rewrite span_not_gt_trimEnd.
    destruct (Str.span_not_gt s) as [a0 [|g b]].
    + destruct (Str.trimEnd a0), a0; exact IH.
    + destruct a0; [exact IH | reflexivity].
Qed.

Lemma match_angle_trim (s : string) :
  Str.match_angle (Str.trim s) = Str.match_angle s.
Proof. unfold Str.trim. now rewrite match_angle_trimEnd, match_angle_trimStart. Qed.

Lemma span_not_gt_spec (s a b : string) :
  Str.span_not_gt s = (a, b) ->
  s = a +:+ b
  /\ Str.includes a ">"%char = false
  /\ (b = "" \/ exists b', b = String ">"%char b').
Proof.
  revert a b. induction s as [|c s IH]; intros a b; cbn [Str.span_not_gt].
  - intros [= <- <-]. auto.
  - destruct (Ascii.eqb_spec c ">"%char) as [->|Hc].
    + intros [= <- <-]. eauto.
    + destruct (Str.span_not_gt s) as [a0 b0].
      destruct (IH a0 b0 eq_refl) as (-> & Ha & Hb).
      intros [= <- <-]. simpl. rewrite Ha.
      apply Ascii.eqb_neq in Hc. rewrite Hc. auto.
Qed.

Lemma span_not_gt_append (m post : string) :
  Str.includes m ">"%char = false ->
  Str.span_not_gt (m +:+ String ">"%char post) = (m, String ">"%char post).
Proof.
  induction m as [|c m IH]; simpl; [reflexivity |].
  intros [Hc Hm]%orb_false_elim. rewrite Hc, (IH Hm). reflexivity.
Qed.

(** [match_angle] against the expression [<([^>]+)>] read as a pattern: a
    result is a non-empty run free of ['>'] that stands between a ['<'] and
    a ['>'], and there is no result only when the string has no such
    run. *)
Lemma match_angle_sound (s m : string) :
  Str.match_angle s = Some m ->
  exists pre post,
    s = pre +:+ "<" +:+ m +:+ ">" +:+ post
    /\ m <> ""
    /\ Str.includes m ">"%char = false.
Proof.
  induction s as [|c s IH]; cbn [Str.match_angle]; [discriminate |].
  intros H.
  assert (Hrec : Str.match_angle s = Some m ->
                 exists pre post,
                   String c s = pre +:+ "<" +:+ m +:+ ">" +:+ post
                   /\ m <> "" /\ Str.includes m ">"%char = false).
  { intros (pre & post & -> & Hm)%IH. now exists (String c pre), post. }
  destruct (Ascii.eqb_spec c "<"%char) as [->|Hc]; [| auto].
  destruct (Str.span_not_gt s) as [a b] eqn:Hspan.
  destruct a as [|x a]; [auto |]. destruct b as [|g b]; [auto |].
  injection H as <-.
  destruct (span_not_gt_spec _ _ _ Hspan) as (-> & Ha & [Hb | [b' Hb]]);
    [discriminate Hb |].
  injection Hb as -> ->.
  exists "", b'. split; [| split; [discriminate | exact Ha]].
  reflexivity.
Qed.

Lemma match_angle_complete (s : string) :
  Str.match_angle s = None ->
  forall pre m post,
    m <> "" -> Str.includes m ">"%char = false ->
    s <> pre +:+ "<" +:+ m +:+ ">" +:+ post.
Proof.
  induction s as [|c s IH]; intros H pre m post Hm Hgt Heq.
  - destruct pre; discriminate.
  - destruct pre as [|p pre]; simpl in Heq; injection Heq as -> ->.
    + cbn [Str.match_angle] in H. simpl in H.
      rewrite (span_not_gt_append m post Hgt) in H.
      destruct m; [congruence | discriminate].
    + apply (IH) with (pre := pre) (m := m) (post := post); auto.
      cbn [Str.match_angle] in H.
      destruct (Ascii.eqb p "<"); [| exact H].
      destruct (Str.span_not_gt _) as [[|x a] [|g b]]; first [exact H | discriminate].
Qed.

(** The result is that of the leftmost attempt that succeeds, and at a
    given ['<'] the run is determined. *)
Lemma match_angle_leftmost (s m : string) :
  Str.match_angle s = Some m ->
  exists pre post,
    s = pre +:+ "<" +:+ m +:+ ">" +:+ post
    /\ forall pre' m' post',
        m' <> "" -> Str.includes m' ">"%char = false ->
        s = pre' +:+ "<" +:+ m' +:+ ">" +:+ post' ->
        String.length pre <= String.length pre' /\ (pre' = pre -> m' = m).
Proof.
  induction s as [|c s IH]; cbn [Str.match_angle]; [discriminate |].
  intros H.
  destruct (Ascii.eqb c "<"
            && match Str.span_not_gt s with
               | (String _ _, String _ _) => true
               | _ => false
               end) eqn:Hhead.
  - apply andb_prop in Hhead as [->%Ascii.eqb_eq Hspan].
    rewrite Ascii.eqb_refl in H.
    destruct (Str.span_not_gt s) as [[|x a] [|g b]] eqn:Hs; try discriminate.
    injection H as <-.
    destruct (span_not_gt_spec _ _ _ Hs) as (-> & Ha & [Hb | [b' Hb]]);
      [discriminate Hb |].
    injection Hb as -> ->.
    exists "", b'. split; [reflexivity |].
    intros pre' m' post' Hm' Hgt' Heq. split; [simpl; lia |].
    intros ->.
    change (String "<"%char (String x a +:+ String ">"%char b')
            = String "<"%char (m' +:+ String ">"%char post')) in Heq.
    injection Heq as Heq.
    pose proof (span_not_gt_append m' post' Hgt') as Hs'.
    rewrite <- Heq in Hs'.
    change (String x (a +:+ String ">"%char b'))
      with (String x a +:+ String ">"%char b') in Hs'.
    congruence.
  - assert (Hrec : Str.match_angle s = Some m).
    { destruct (Ascii.eqb c "<"); [| exact H].
      destruct (Str.span_not_gt s) as [[|x a] [|g b]];
        first [exact H | discriminate]. }
    destruct (IH Hrec) as (pre & post & Hs & Hleft).
    exists (String c pre), post. split; [simpl; now f_equal |].
    intros pre' m' post' Hm' Hgt' Heq.
    destruct pre' as [|p pre']; simpl in Heq; injection Heq as -> Heq.
    + exfalso. rewrite Heq, (span_not_gt_append m' post' Hgt') in Hhead.
      destruct m'; [congruence | discriminate].
    + destruct (Hleft pre' m' post' Hm' Hgt' Heq) as [Hle Hsame].
      split; [simpl; lia |]. intros [= ->]. auto.
Qed.

(** What separates the code from the specified normalisation: the two
    accept the same values, and the specified address is the returned one
    with the white space around it removed. *)
Lemma extractEmail_specified_is_trimmed (value : jsval) :
  extractEmail_specified value = Str.trim <$> extractEmail value.
Proof.
  destruct value as [| | b | r | v | items | props]; try reflexivity.
  unfold extractEmail_specified, extractEmail.
  rewrite match_angle_trim.
  destruct (Str.is_empty (Str.trim v)) eqn:He.
  - apply is_empty_true in He.
    rewrite <- (match_angle_trim v), He. simpl. rewrite He. reflexivity.
  - destruct (Str.match_angle v) as [inner|].
    + rewrite <- trim_toLowerCase, includes_at_trim.
      destruct (Str.includes (Str.toLowerCase inner) "@"); reflexivity.
    + destruct (Str.includes (Str.toLowerCase (Str.trim v)) "@"); simpl;
        [| reflexivity].
      now rewrite trim_toLowerCase, trim_idempotent.
Qed.

Lemma extractEmail_same_acceptance (value : jsval) :
  extractEmail value = None <-> extractEmail_specified value = None.
Proof.
  rewrite extractEmail_specified_is_trimmed.
  destruct (extractEmail value); simpl; split; congruence.
Qed.

(** What the function returns holds an ['@'] and no upper-case letter. *)
Lemma extractEmail_contains_at (value : jsval) (email : string) :
  extractEmail value = Some email -> Str.includes email "@"%char = true.
Proof.
  destruct value; try discriminate. unfold extractEmail.
  destruct (Str.is_empty _); [discriminate |].
  destruct (Str.includes _ _) eqn:H; [| discriminate].
  now intros [= <-].
Qed.

Lemma toLowerCase_idempotent (s : string) :
  Str.toLowerCase (Str.toLowerCase s) = Str.toLowerCase s.
Proof.
  induction s as [|c s IH]; simpl; [reflexivity |]. rewrite IH. f_equal.
  destruct c as [[] [] [] [] [] [] [] []]; reflexivity.
Qed.

Lemma extractEmail_lower_case (value : jsval) (email : string) :
  extractEmail value = Some email -> Str.toLowerCase email = email.
Proof.
  destruct value; try discriminate. unfold extractEmail.
  destruct (Str.is_empty _); [discriminate |].
  destruct (Str.includes _ _); [| discriminate].
  intros [= <-]. apply toLowerCase_idempotent.
Qed.

Example extractEmail_display_name :
  extractEmail (JStr "John Doe <JOHN@EXAMPLE.com>") = Some "john@example.com".
Proof. reflexivity. Qed.

Example extractEmail_bare : extractEmail (JStr " Ann@App.Test ") = Some "ann@app.test".
Proof. reflexivity. Qed.

Example extractEmail_not_an_email : extractEmail (JStr "not-an-email") = None.
Proof. reflexivity. Qed.

(** C4, at the input where the code departs from it: the address
    ["Bob < BOB@EXAMPLE.com >"] has a bracketed portion with white space
    around the address.  The claim has that portion trimmed and put in
    lower case, ["bob@example.com"]; the code trims the whole input only,
    before it looks for the brackets, and returns the portion with its
    white space, [" bob@example.com "]. *)
Theorem extractEmail_keeps_inner_space :
  extractEmail spaced_address = Some " bob@example.com "
  /\ extractEmail_specified spaced_address = Some "bob@example.com".
Proof. split; reflexivity. Qed.

(** ** When the dispatcher is called *)

Lemma extractEmail_nonempty (value : jsval) (email : string) :
  extractEmail value = Some email -> Str.is_empty email = false.
Proof.
  intros H%extractEmail_contains_at. destruct email; [discriminate H | reflexivity].
Qed.

Lemma sent_at_most_once (cfg : Config) (sendMail : Dispatcher)
    (req : Request) (res : Res) :
  length (sent (send_invite_email cfg sendMail req res)) <= 1.
Proof.
  destruct (send_invite_email_cases cfg sendMail req res)
    as [_ H | _ _ H | _ _ _ H | _ _ _ _ H | e _ _ _ _ _ H
       | transport to bodies _ _ _ _ _ _ _ H];
    rewrite H; simpl; lia.
Qed.

(** The dispatcher is called exactly when every check passes and the
    composer runs to its end; the message is then the composed one, sent
    to the normalised address. *)
Lemma dispatch_reached_iff (cfg : Config) (sendMail : Dispatcher)
    (req : Request) (res : Res) (message : Message) :
  sent (send_invite_email cfg sendMail req res) = [message] <->
  unauthorized cfg req = false
  /\ smtp_unconfigured cfg = false
  /\ present (INVITE_FROM_EMAIL cfg) = true
  /\ valid_link (reqBody req) = true
  /\ exists to bodies,
      extractEmail (field (payload_of (reqBody req)) "email") = Some to
      /\ buildInviteBodies (composer_input_of (reqBody req)) = Ok bodies
      /\ message = message_of cfg (reqBody req) to bodies.
Proof.
  destruct (send_invite_email_cases cfg sendMail req res)
    as [Ha H | Ha Hv H | Ha Hv Hs H | Ha Hv Hs Hf H | e Ha Hv Hs Hf Hb H
       | transport to bodies Ha Hv Hs Hf Htr Hto Hb H];
    rewrite H; simpl; split;
    try discriminate;
    try (intros (Ha' & Hs' & Hf' & Hl' & to' & bodies' & Hto' & Hb' & _);
         unfold valid_email in *; try rewrite Hto' in *; simpl in *; congruence).
  - intros (Ha' & Hs' & Hf' & Hl' & to' & bodies' & Hto' & Hb' & _).
    unfold valid_email in Hv. rewrite Hto', Hl', andb_true_r in Hv.
    pose proof (extractEmail_nonempty _ _ Hto') as Hne. simpl in Hv.
    rewrite Hne in Hv. discriminate.
  - intros [= <-]. apply andb_prop in Hv as [_ Hl]. eauto 10.
  - intros (_ & _ & _ & _ & to' & bodies' & Hto' & Hb' & ->).
    rewrite Hto in Hto'. rewrite Hb in Hb'. congruence.
Qed.

(** ** The pipeline *)

Lemma statusCode_json (v : jsval) (res : Res) :
  statusCode (json v res) = statusCode res.
Proof. unfold json. destruct (present _); reflexivity. Qed.

(** A preflight request is answered 204 without a body, whatever the
    route, and nothing is sent. *)
Lemma app_preflight (swaggerSpec : jsval) (cfg : Config)
    (sendMail : Dispatcher) (req : Request) (res : Res) :
  method req = "OPTIONS" ->
  app swaggerSpec cfg sendMail req res
  = respond (sendStatus204 (applyCors cfg req res)).
Proof. intros H. unfold app. now rewrite H. Qed.

(** A request the router gives to the send handler reaches it with the
    response object the CORS stage prepared. *)
Lemma app_send_invite (swaggerSpec : jsval) (cfg : Config)
    (sendMail : Dispatcher) (req : Request) (res : Res) :
  method req <> "OPTIONS" ->
  malformed req = false ->
  route req = RouteSendInvite ->
  app swaggerSpec cfg sendMail req res
  = send_invite_email cfg sendMail req (applyCors cfg req res).
Proof.
  intros Hm%String.eqb_neq Hb Hr. unfold app. now rewrite Hm, Hb, Hr.
Qed.

(** A body the parser rejects never reaches a route. *)
Lemma app_malformed (swaggerSpec : jsval) (cfg : Config)
    (sendMail : Dispatcher) (req : Request) (res : Res) :
  method req <> "OPTIONS" ->
  malformed req = true ->
  app swaggerSpec cfg sendMail req res
  = {| outcome := Delegated (applyCors cfg req res); sent := [] |}.
Proof. intros Hm%String.eqb_neq Hb. unfold app. now rewrite Hm, Hb. Qed.

Lemma app_health (swaggerSpec : jsval) (cfg : Config)
    (sendMail : Dispatcher) (req : Request) (res : Res) :
  method req <> "OPTIONS" ->
  malformed req = false ->
  route req = RouteHealth ->
  statusCode res = 200 ->
  answered (app swaggerSpec cfg sendMail req res) 200
    (JObj [("ok", JBool true)]).
Proof.
  intros Hm%String.eqb_neq Hb Hr Hs. unfold app. rewrite Hm, Hb, Hr.
  eexists. split; [reflexivity |]. split; [| reflexivity].
  rewrite statusCode_json, applyCors_statusCode. exact Hs.
Qed.

(** Outside wildcard mode an origin of the allow-list is echoed, and any
    other request leaves the header as it was. *)
Lemma applyCors_listed_origin (cfg : Config) (req : Request) (res : Res)
    (origin : string) :
  allowAnyOrigin cfg = false ->
  reqHeaders req !! "origin" = Some origin ->
  origin <> "" ->
  includes_string (INVITE_ALLOWED_ORIGINS cfg) origin = true ->
  getHeader "Access-Control-Allow-Origin" (applyCors cfg req res) = Some origin.
Proof.
  intros Hany Ho Hne%is_empty_false Hin. unfold applyCors.
  rewrite Hany, Ho, Hne, Hin. simpl.
  rewrite !getHeader_setHeader_other by (vm_compute; discriminate).
  apply getHeader_setHeader_same.
Qed.

Lemma applyCors_other_origin (cfg : Config) (req : Request) (res : Res) :
  allowAnyOrigin cfg = false ->
  match reqHeaders req !! "origin" with
  | Some origin => includes_string (INVITE_ALLOWED_ORIGINS cfg) origin = false
  | None => True
  end ->
  getHeader "Access-Control-Allow-Origin" (applyCors cfg req res)
  = getHeader "Access-Control-Allow-Origin" res.
Proof.
  intros Hany Ho. unfold applyCors. rewrite Hany.
  rewrite !getHeader_setHeader_other by (vm_compute; discriminate).
  destruct (reqHeaders req !! "origin") as [origin|]; [| reflexivity].
  now rewrite Ho, andb_false_r.
Qed.

(** The allow-list: unset means any origin, and a star anywhere in the list
    does too. *)
Example origins_default : allowAnyOrigin (load_config ∅) = true.
Proof. reflexivity. Qed.

Example origins_star_in_list :
  allowAnyOrigin
    (load_config {["INVITE_ALLOWED_ORIGINS" := "https://a.test, * ,"]})
  = true.
Proof. reflexivity. Qed.

Example origins_listed :
  INVITE_ALLOWED_ORIGINS
    (load_config {["INVITE_ALLOWED_ORIGINS" := " https://a.test ,https://b.test,"]})
  = ["https://a.test"; "https://b.test"].
Proof. reflexivity. Qed.

(** * Further properties of the code *)

(** ** The CORS stage on the whole pipeline *)

(** After the CORS stage nothing touches a header other than the three
    that describe a body. *)
Lemma app_keeps_headers (name : string) (swaggerSpec : jsval) (cfg : Config)
    (sendMail : Dispatcher) (req : Request) (res : Res) :
  Str.toLowerCase "Content-Type" <> Str.toLowerCase name ->
  Str.toLowerCase "Content-Length" <> Str.toLowerCase name ->
  Str.toLowerCase "Transfer-Encoding" <> Str.toLowerCase name ->
  getHeader name (response_object (outcome (app swaggerSpec cfg sendMail req res)))
  = getHeader name (applyCors cfg req res).
Proof.
  intros Ht Hl He. unfold app.
  destruct (String.eqb (method req) "OPTIONS").
  { simpl. unfold sendStatus204.
    change (getHeader name
              (removeHeader "Content-Type"
                 (removeHeader "Content-Length"
                    (removeHeader "Transfer-Encoding" (applyCors cfg req res))))
            = getHeader name (applyCors cfg req res)).
    now rewrite !getHeader_removeHeader_other. }
  destruct (malformed req); [reflexivity |].
  destruct (route req); simpl; try reflexivity.
  - now apply getHeader_json.
  - now apply getHeader_json.
  - now apply send_invite_email_keeps_headers.
Qed.

(** X1: whatever the configuration and the request, the response object
    carries [Vary: Origin], the fixed list of allowed headers and the fixed
    list of allowed methods at the end of every path through the
    application. *)
Theorem fixed_cors_headers_on_every_response (swaggerSpec : jsval)
    (cfg : Config) (sendMail : Dispatcher) (req : Request) (res : Res) :
  getHeader "Vary"
    (response_object (outcome (app swaggerSpec cfg sendMail req res)))
  = Some "Origin"
  /\ getHeader "Access-Control-Allow-Headers"
       (response_object (outcome (app swaggerSpec cfg sendMail req res)))
     = Some "Content-Type, X-API-Key"
  /\ getHeader "Access-Control-Allow-Methods"
       (response_object (outcome (app swaggerSpec cfg sendMail req res)))
     = Some "GET, POST, OPTIONS".
Proof.
  rewrite !app_keeps_headers by (vm_compute; discriminate).
  apply applyCors_fixed_headers.
Qed.

(** X2: outside wildcard mode, a request whose [Origin] header is an entry
    of the allow-list gets that origin back in
    [Access-Control-Allow-Origin], on every path through the application. *)
Theorem listed_origin_is_echoed (swaggerSpec : jsval) (cfg : Config)
    (sendMail : Dispatcher) (req : Request) (res : Res) (origin : string) :
  allowAnyOrigin cfg = false ->
  reqHeaders req !! "origin" = Some origin ->
  origin <> "" ->
  includes_string (INVITE_ALLOWED_ORIGINS cfg) origin = true ->
  getHeader "Access-Control-Allow-Origin"
    (response_object (outcome (app swaggerSpec cfg sendMail req res)))
  = Some origin.
Proof.
  intros Hany Ho Hne Hin.
  rewrite app_keeps_headers by (vm_compute; discriminate).
  now apply applyCors_listed_origin.
Qed.

Lemma listed_origin_is_echoed_witness :
  getHeader "Access-Control-Allow-Origin"
    (response_object
       (outcome
          (app JNull cfg_listed delivers
             (post (with_origin "https://b.test") blank_body) fresh_res)))
  = Some "https://b.test".
Proof.
  apply (listed_origin_is_echoed JNull cfg_listed delivers
           (post (with_origin "https://b.test") blank_body) fresh_res
           "https://b.test").
  - reflexivity.
  - reflexivity.
  - discriminate.
  - reflexivity.
Defined.

(** X3: outside wildcard mode, a request without [Origin] header, or with
    one that is no entry of the allow-list, gets no
    [Access-Control-Allow-Origin] header on any path through the
    application. *)
Theorem unlisted_origin_gets_no_header (swaggerSpec : jsval) (cfg : Config)
    (sendMail : Dispatcher) (req : Request) (res : Res) :
  allowAnyOrigin cfg = false ->
  match reqHeaders req !! "origin" with
  | Some origin => includes_string (INVITE_ALLOWED_ORIGINS cfg) origin = false
  | None => True
  end ->
  getHeader "Access-Control-Allow-Origin" res = None ->
  getHeader "Access-Control-Allow-Origin"
    (response_object (outcome (app swaggerSpec cfg sendMail req res)))
  = None.
Proof.
  intros Hany Ho Hres.
  rewrite app_keeps_headers by (vm_compute; discriminate).
  rewrite applyCors_other_origin by assumption. exact Hres.
Qed.

Lemma unlisted_origin_gets_no_header_witness :
  getHeader "Access-Control-Allow-Origin"
    (response_object
       (outcome
          (app JNull cfg_listed delivers
             (post (with_origin "https://evil.test") invite_body) fresh_res)))
  = None.
Proof.
  apply (unlisted_origin_gets_no_header JNull cfg_listed delivers
           (post (with_origin "https://evil.test") invite_body) fresh_res);
    reflexivity.
Defined.

(** X4: a request with method [OPTIONS] is answered 204 with no body and
    no content type, whatever its route, headers and body and whatever the
    configuration: the API key is not asked for, the body parser is not
    reached and nothing is sent. *)
Theorem preflight_is_204 (swaggerSpec : jsval) (cfg : Config)
    (sendMail : Dispatcher) (req : Request) (res : Res) :
  method req = "OPTIONS" ->
  exists answer,
    outcome (app swaggerSpec cfg sendMail req res) = Responded answer
    /\ statusCode answer = 204
    /\ resBody answer = NoBody
    /\ getHeader "Content-Type" answer = None
    /\ sent (app swaggerSpec cfg sendMail req res) = [].
Proof.
  intros Hm. rewrite (app_preflight _ _ _ _ _ Hm).
  exists (sendStatus204 (applyCors cfg req res)).
  repeat split.
  unfold getHeader, sendStatus204, removeHeader. simpl.
  apply lookup_delete_eq.
Qed.

Lemma preflight_is_204_witness :
  exists answer,
    outcome (app JNull cfg_keyed delivers (preflight ∅) fresh_res)
    = Responded answer
    /\ statusCode answer = 204
    /\ resBody answer = NoBody
    /\ getHeader "Content-Type" answer = None
    /\ sent (app JNull cfg_keyed delivers (preflight ∅) fresh_res) = [].
Proof.
  apply (preflight_is_204 JNull cfg_keyed delivers (preflight ∅) fresh_res).
  reflexivity.
Defined.

(** X5: the health route answers 200 with [{ ok: true }] under every
    configuration, with or without API key and SMTP credentials, and sends
    nothing. *)
Theorem health_ignores_configuration (swaggerSpec : jsval) (cfg : Config)
    (sendMail : Dispatcher) (req : Request) (res : Res) :
  method req <> "OPTIONS" ->
  malformed req = false ->
  route req = RouteHealth ->
  statusCode res = 200 ->
  answered (app swaggerSpec cfg sendMail req res) 200
    (JObj [("ok", JBool true)])
  /\ sent (app swaggerSpec cfg sendMail req res) = [].
Proof.
  intros Hm Hb Hr Hs. split; [now apply app_health |].
  apply String.eqb_neq in Hm. unfold app. now rewrite Hm, Hb, Hr.
Qed.

Lemma health_ignores_configuration_witness :
  answered (app JNull cfg_keyed_bare delivers get_health fresh_res) 200
    (JObj [("ok", JBool true)])
  /\ sent (app JNull cfg_keyed_bare delivers get_health fresh_res) = [].
Proof.
  apply (health_ignores_configuration JNull cfg_keyed_bare delivers get_health
           fresh_res); first [reflexivity | discriminate].
Defined.

(** ** What reaches the dispatcher *)

Lemma app_sent_cases (swaggerSpec : jsval) (cfg : Config)
    (sendMail : Dispatcher) (req : Request) (res : Res) :
  sent (app swaggerSpec cfg sendMail req res) = []
  \/ (method req <> "OPTIONS"
      /\ malformed req = false
      /\ route req = RouteSendInvite
      /\ sent (app swaggerSpec cfg sendMail req res)
         = sent (send_invite_email cfg sendMail req (applyCors cfg req res))).
Proof.
  unfold app.
  destruct (String.eqb_spec (method req) "OPTIONS") as [Hm|Hm]; [now left |].
  destruct (malformed req); [now left |].
  destruct (route req); try (now left).
  right. auto.
Qed.

(** X6: a message is handed to the dispatcher only for a request that is
    not a preflight, whose body the parser accepted, that is routed to the
    send handler and passed the API-key guard, the validation of email and
    link and the credentials check. *)
Theorem dispatch_only_after_every_check (swaggerSpec : jsval) (cfg : Config)
    (sendMail : Dispatcher) (req : Request) (res : Res) :
  sent (app swaggerSpec cfg sendMail req res) <> [] ->
  method req <> "OPTIONS"
  /\ malformed req = false
  /\ route req = RouteSendInvite
  /\ unauthorized cfg req = false
  /\ valid_email (reqBody req) && valid_link (reqBody req) = true
  /\ smtp_unconfigured cfg = false
  /\ present (INVITE_FROM_EMAIL cfg) = true.
Proof.
  intros Hsent.
  destruct (app_sent_cases swaggerSpec cfg sendMail req res)
    as [H | (Hm & Hb & Hr & H)]; [congruence |].
  rewrite H in Hsent. do 3 (split; [assumption |]).
  destruct (send_invite_email_cases cfg sendMail req (applyCors cfg req res))
    as [_ E | _ _ E | _ _ _ E | _ _ _ _ E | e _ _ _ _ _ E
       | transport to bodies Ha Hv Hs Hf _ _ _ E];
    rewrite E in Hsent; simpl in Hsent; try congruence.
  auto.
Qed.

Lemma dispatch_only_after_every_check_witness :
  method (post ∅ invite_body) <> "OPTIONS"
  /\ malformed (post ∅ invite_body) = false
  /\ route (post ∅ invite_body) = RouteSendInvite
  /\ unauthorized cfg_open (post ∅ invite_body) = false
  /\ valid_email (reqBody (post ∅ invite_body))
     && valid_link (reqBody (post ∅ invite_body)) = true
  /\ smtp_unconfigured cfg_open = false
  /\ present (INVITE_FROM_EMAIL cfg_open) = true.
Proof.
  apply (dispatch_only_after_every_check JNull cfg_open delivers
           (post ∅ invite_body) fresh_res).
  vm_compute. discriminate.
Defined.

(** X7: handling one request calls the dispatcher at most once: there is
    no second attempt after a failure. *)
Theorem at_most_one_send_per_request (swaggerSpec : jsval) (cfg : Config)
    (sendMail : Dispatcher) (req : Request) (res : Res) :
  length (sent (app swaggerSpec cfg sendMail req res)) <= 1.
Proof.
  destruct (app_sent_cases swaggerSpec cfg sendMail req res)
    as [H | (_ & _ & _ & H)]; rewrite H; [simpl; lia |].
  apply sent_at_most_once.
Qed.

(** X8: the recipient of a dispatched message is the address extracted
    from the body's [email] field: it holds an ['@'] and no upper-case
    letter. *)
Theorem recipient_is_normalised (cfg : Config) (sendMail : Dispatcher)
    (req : Request) (res : Res) (message : Message) :
  sent (send_invite_email cfg sendMail req res) = [message] ->
  extractEmail (field (payload_of (reqBody req)) "email")
  = Some (msg_to message)
  /\ Str.includes (msg_to message) "@"%char = true
  /\ Str.toLowerCase (msg_to message) = msg_to message.
Proof.
  intros (_ & _ & _ & _ & to & bodies & Hto & _ & ->)%dispatch_reached_iff.
  simpl. split; [exact Hto |].
  split; [eapply extractEmail_contains_at | eapply extractEmail_lower_case];
    exact Hto.
Qed.

Lemma recipient_is_normalised_witness :
  extractEmail (field (payload_of (reqBody (post ∅ invite_body))) "email")
  = Some (msg_to invite_message)
  /\ Str.includes (msg_to invite_message) "@"%char = true
  /\ Str.toLowerCase (msg_to invite_message) = msg_to invite_message.
Proof.
  apply (recipient_is_normalised cfg_open delivers (post ∅ invite_body)
           fresh_res invite_message).
  reflexivity.
Defined.

Lemma load_config_from_name (env : gmap string string) :
  Str.is_empty (INVITE_FROM_NAME (load_config env)) = false.
Proof.
  simpl. destruct (env !! "INVITE_FROM_NAME") as [name|]; simpl; [| reflexivity].
  destruct (Str.is_empty name) eqn:Hn; simpl; [reflexivity | exact Hn].
Qed.

(** X9: under a configuration the module derives, the sender of a
    dispatched message always has the form [Name <address>]: the name is
    never empty (it defaults to ["Attendance Platform"]), and the address
    is the one of the environment or, when that is unset or empty, the SMTP
    user. *)
Theorem sender_is_always_named (env : gmap string string)
    (sendMail : Dispatcher) (req : Request) (res : Res) (message : Message) :
  sent (send_invite_email (load_config env) sendMail req res) = [message] ->
  exists address,
    or_else (env !! "INVITE_FROM_EMAIL") (or_else (env !! "SMTP_USER") None)
    = Some address
    /\ address <> ""
    /\ INVITE_FROM_NAME (load_config env) <> ""
    /\ msg_from message
       = Some (INVITE_FROM_NAME (load_config env) +:+ " <" +:+ address +:+ ">").
Proof.
  intros (_ & _ & Hf & _ & to & bodies & _ & _ & ->)%dispatch_reached_iff.
  pose proof (load_config_from_name env) as Hn.
  remember (load_config env) as cfg eqn:Hcfg.
  assert (Hfrom : INVITE_FROM_EMAIL cfg
                  = or_else (env !! "INVITE_FROM_EMAIL")
                      (or_else (env !! "SMTP_USER") None))
    by (subst cfg; reflexivity).
  rewrite <- Hfrom.
  destruct (INVITE_FROM_EMAIL cfg) as [address|] eqn:He; [| discriminate].
  simpl in Hf. apply negb_true_iff in Hf.
  exists address. split; [reflexivity |].
  split; [now apply is_empty_false |].
  split; [now apply is_empty_false |].
  unfold message_of, formatFrom. simpl. rewrite He, Hf, Hn. reflexivity.
Qed.

Lemma sender_is_always_named_witness :
  exists address,
    or_else (smtp_env !! "INVITE_FROM_EMAIL") (or_else (smtp_env !! "SMTP_USER") None)
    = Some address
    /\ address <> ""
    /\ INVITE_FROM_NAME (load_config smtp_env) <> ""
    /\ msg_from invite_message
       = Some (INVITE_FROM_NAME (load_config smtp_env)
               +:+ " <" +:+ address +:+ ">").
Proof.
  apply (sender_is_always_named smtp_env delivers (post ∅ invite_body)
           fresh_res invite_message).
  reflexivity.
Defined.

(** X10: the reply-to of a dispatched message is the configured one when
    there is one; otherwise it is the address extracted from the body's
    [from] field, and there is none when that field holds no address. *)
Theorem reply_to_precedence (cfg : Config) (sendMail : Dispatcher)
    (req : Request) (res : Res) (message : Message) :
  sent (send_invite_email cfg sendMail req res) = [message] ->
  msg_replyTo message
  = if present (INVITE_REPLY_TO cfg) then INVITE_REPLY_TO cfg
    else extractEmail (field (payload_of (reqBody req)) "from").
Proof.
  intros (_ & _ & _ & _ & to & bodies & _ & _ & ->)%dispatch_reached_iff.
  simpl.
  destruct (INVITE_REPLY_TO cfg) as [r|]; simpl.
  - destruct (Str.is_empty r) eqn:Hr; simpl; [| now rewrite Hr; simpl; rewrite Hr].
    destruct (extractEmail _) as [e|] eqn:He; simpl; [| reflexivity].
    rewrite (extractEmail_nonempty _ _ He). simpl.
    now rewrite (extractEmail_nonempty _ _ He).
  - destruct (extractEmail _) as [e|] eqn:He; simpl; [| reflexivity].
    rewrite (extractEmail_nonempty _ _ He). simpl.
    now rewrite (extractEmail_nonempty _ _ He).
Qed.

Lemma reply_to_precedence_witness :
  msg_replyTo (message_of cfg_open reply_body "ann@example.com"
                 {| subject := subject_line "Attendance Platform";
                    textBody :=
                      text_template "there" "Attendance Platform" "member"
                        "https://app.test/register";
                    htmlBody :=
                      html_template "there" "Attendance Platform" "member"
                        "https://app.test/register" |})
  = if present (INVITE_REPLY_TO cfg_open) then INVITE_REPLY_TO cfg_open
    else extractEmail (field (payload_of (reqBody (post ∅ reply_body))) "from").
Proof.
  apply (reply_to_precedence cfg_open delivers (post ∅ reply_body) fresh_res).
  reflexivity.
Defined.

Example reply_to_from_request :
  msg_replyTo <$> sent (send_invite_email cfg_open delivers (post ∅ reply_body)
                          fresh_res)
  = [Some "lead@example.com"].
Proof. reflexivity. Qed.

Lemma text_template_has_link (name org label link : string) :
  Str.occurs_in (Str.LF +:+ link +:+ Str.LF) (text_template name org label link).
Proof.
  unfold text_template, Str.join.
  apply (occurs_in_intro
           ("Hi " +:+ name +:+ "," +:+ Str.LF +:+ "" +:+ Str.LF
            +:+ "You've been invited to join " +:+ org +:+ " as a "
            +:+ label +:+ "." +:+ Str.LF
            +:+ "Use the link below to set up your username and password:")
           (Str.LF +:+ link +:+ Str.LF)
           ("" +:+ Str.LF
            +:+ "If you were not expecting this email, you can ignore it.")).
  rewrite !append_assoc. reflexivity.
Qed.

Lemma html_template_has_link (name org label link : string) :
  Str.occurs_in ("<a href=" +:+ Str.DQ +:+ link +:+ Str.DQ +:+ " target=")
    (html_template name org label link).
Proof.
  unfold html_template.
  apply (occurs_in_intro
           (Str.LF +:+ "    <p>Hi " +:+ name +:+ ",</p>" +:+ Str.LF
            +:+ "    <p>You've been invited to join <strong>" +:+ org
            +:+ "</strong> as a <strong>" +:+ label +:+ "</strong>.</p>"
            +:+ Str.LF +:+ "    <p>")
           ("<a href=" +:+ Str.DQ +:+ link +:+ Str.DQ +:+ " target=")
           (Str.DQ +:+ "_blank" +:+ Str.DQ
            +:+ " rel=" +:+ Str.DQ +:+ "noopener noreferrer" +:+ Str.DQ
            +:+ ">Click here to finish registration</a>.</p>" +:+ Str.LF
            +:+ "    <p>If you were not expecting this email, you can ignore it.</p>"
            +:+ Str.LF +:+ "  ")).
  rewrite !append_assoc. reflexivity.
Qed.

Lemma buildInviteBodies_shape (input : ComposerInput) (bodies : InviteBodies) :
  buildInviteBodies input = Ok bodies ->
  exists name org label,
    recipientName_of (firstName input) (lastName input) = Ok name
    /\ subjectOrg_of (organizationName input) = Ok org
    /\ roleLabel_of (role input) = Ok label
    /\ subject bodies = subject_line org
    /\ textBody bodies = text_template name org label (link input)
    /\ htmlBody bodies = html_template name org label (link input).
Proof.
  unfold buildInviteBodies. intros H.
  destruct (recipientName_of _ _) as [name|]; [| discriminate].
  simpl in H. destruct (subjectOrg_of _) as [org|]; [| discriminate].
  simpl in H. destruct (roleLabel_of _) as [label|]; [| discriminate].
  simpl in H. injection H as <-. exists name, org, label. repeat split.
Qed.

(** X11: the link of a dispatched message is the body's [link] with the
    white space around it removed: it stands on a line of its own in the
    plain-text body and is the [href] of the anchor in the HTML body. *)
Theorem link_is_trimmed_in_both_bodies (cfg : Config) (sendMail : Dispatcher)
    (req : Request) (res : Res) (message : Message) (raw : string) :
  sent (send_invite_email cfg sendMail req res) = [message] ->
  field (payload_of (reqBody req)) "link" = JStr raw ->
  Str.trim raw <> ""
  /\ Str.occurs_in (Str.LF +:+ Str.trim raw +:+ Str.LF) (msg_text message)
  /\ Str.occurs_in
       ("<a href=" +:+ Str.DQ +:+ Str.trim raw +:+ Str.DQ +:+ " target=")
       (msg_html message).
Proof.
  intros (_ & _ & _ & Hl & to & bodies & _ & Hb & ->)%dispatch_reached_iff Hraw.
  unfold valid_link in Hl. rewrite Hraw in Hl. simpl in Hl.
  apply negb_true_iff, is_empty_false in Hl. split; [exact Hl |].
  destruct (buildInviteBodies_shape _ _ Hb)
    as (name & org & label & _ & _ & _ & _ & Ht & Hh).
  simpl in Ht, Hh. rewrite Hraw in Ht, Hh. simpl in Ht, Hh.
  simpl. rewrite Ht, Hh.
  split; [apply text_template_has_link | apply html_template_has_link].
Qed.

Lemma link_is_trimmed_in_both_bodies_witness :
  Str.trim " https://app.test/register " <> ""
  /\ Str.occurs_in
       (Str.LF +:+ Str.trim " https://app.test/register " +:+ Str.LF)
       (msg_text invite_message)
  /\ Str.occurs_in
       ("<a href=" +:+ Str.DQ +:+ Str.trim " https://app.test/register "
        +:+ Str.DQ +:+ " target=")
       (msg_html invite_message).
Proof.
  apply (link_is_trimmed_in_both_bodies cfg_open delivers (post ∅ invite_body)
           fresh_res invite_message " https://app.test/register ");
    reflexivity.
Defined.

(** ** The answers of the handler *)

(** X12: on a fresh response object the handler answers with one of the
    statuses 200, 400, 401, 500 and 502, or its promise is rejected with
    the response object untouched; it never passes the request on. *)
Theorem handler_statuses (cfg : Config) (sendMail : Dispatcher)
    (req : Request) (res : Res) :
  statusCode res = 200 ->
  match outcome (send_invite_email cfg sendMail req res) with
  | Responded answer => In (statusCode answer) [200; 400; 401; 500; 502]
  | Delegated _ => False
  | Rejected _ untouched => untouched = res
  end.
Proof.
  intros Hres.
  destruct (send_invite_email_cases cfg sendMail req res)
    as [_ E | _ _ E | _ _ _ E | _ _ _ _ E | e _ _ _ _ _ E
       | transport to bodies _ _ _ _ _ _ _ E];
    rewrite E; unfold respond; cbn [outcome];
    try (rewrite statusCode_json; simpl; tauto);
    try reflexivity.
  unfold delivery_response.
  destruct (sendMail _ _) as [id|t]; rewrite statusCode_json; simpl;
    rewrite ?Hres; tauto.
Qed.

Lemma handler_statuses_witness :
  match outcome (send_invite_email cfg_open refuses (post ∅ invite_body)
                   fresh_res) with
  | Responded answer => In (statusCode answer) [200; 400; 401; 500; 502]
  | Delegated _ => False
  | Rejected _ untouched => untouched = fresh_res
  end.
Proof.
  apply (handler_statuses cfg_open refuses (post ∅ invite_body) fresh_res).
  reflexivity.
Defined.

(** X13: the handler reports a delivery only after one: whenever the
    answer is [{ delivered: true, ... }], exactly one message was handed
    to the dispatcher, the dispatcher returned a receipt for it, and the
    [messageId] of the answer is the one of the receipt (or null). *)
Theorem delivered_implies_sent (cfg : Config) (sendMail : Dispatcher)
    (req : Request) (res : Res) (code : nat) (id : jsval) :
  answered (send_invite_email cfg sendMail req res) code
    (JObj [("delivered", JBool true); ("messageId", id)]) ->
  exists transport message receipt,
    transporter cfg = Some transport
    /\ sent (send_invite_email cfg sendMail req res) = [message]
    /\ sendMail transport message = Info receipt
    /\ id = (if truthy receipt then receipt else JNull).
Proof.
  intros (answer & Ho & _ & Hb).
  destruct (send_invite_email_cases cfg sendMail req res)
    as [_ E | _ _ E | _ _ _ E | _ _ _ _ E | e _ _ _ _ _ E
       | transport to bodies _ _ _ _ Htr _ _ E];
    rewrite E in Ho |- *; simpl in Ho; try discriminate;
    injection Ho as <-;
    try (unfold json in Hb; simpl in Hb; discriminate).
  exists transport, (message_of cfg (reqBody req) to bodies).
  destruct (sendMail transport _) as [receipt|t] eqn:Hsend.
  - exists receipt. unfold delivery_response, json in Hb. simpl in Hb.
    injection Hb as <-. auto.
  - unfold delivery_response, json in Hb. simpl in Hb. discriminate.
Qed.

Lemma delivered_implies_sent_witness :
  exists transport message receipt,
    transporter cfg_open = Some transport
    /\ sent (send_invite_email cfg_open delivers (post ∅ invite_body) fresh_res)
       = [message]
    /\ delivers transport message = Info receipt
    /\ JStr "abc123" = (if truthy receipt then receipt else JNull).
Proof.
  apply (delivered_implies_sent cfg_open delivers (post ∅ invite_body)
           fresh_res 200 (JStr "abc123")).
  eexists. repeat split.
Defined.

(** X14: the handler's promise is rejected, so that the handler writes no
    response, exactly when the request passed every check and the composer
    threw: the organization name is a truthy value other than a string, or
    a name or the role holds an object with a [toString] property of its
    own. *)
Theorem rejected_exactly_when_composer_throws (cfg : Config)
    (sendMail : Dispatcher) (req : Request) (res : Res) :
  (exists e untouched,
      outcome (send_invite_email cfg sendMail req res) = Rejected e untouched)
  <->
  unauthorized cfg req = false
  /\ valid_email (reqBody req) && valid_link (reqBody req) = true
  /\ smtp_unconfigured cfg = false
  /\ present (INVITE_FROM_EMAIL cfg) = true
  /\ composable (composer_input_of (reqBody req)) = false.
Proof.
  destruct (send_invite_email_cases cfg sendMail req res)
    as [Ha E | Ha Hv E | Ha Hv Hs E | Ha Hv Hs Hf E | e Ha Hv Hs Hf Hb E
       | transport to bodies Ha Hv Hs Hf _ _ Hb E];
    rewrite E; simpl; split;
    try (intros (? & ? & ?); discriminate);
    try (intros (? & ? & ? & ? & ?); congruence).
  - intros _. repeat (split; [assumption |]).
    destruct (composable _) eqn:Hc; [| reflexivity].
    apply buildInviteBodies_returns in Hc as [bodies Hc]. congruence.
  - eauto.
  - intros (_ & _ & _ & _ & Hc).
    assert (composable (composer_input_of (reqBody req)) = true)
      by (apply buildInviteBodies_returns; eauto).
    congruence.
Qed.

(** X15: the handler answers with the payload [{ error: "Unauthorized" }]
    exactly when an API key is configured and the [x-api-key] header of the
    request is absent or differs from it; with the right key, or without a
    configured key, no request is refused this way. *)
Theorem unauthorized_exactly_when_key_differs (cfg : Config)
    (sendMail : Dispatcher) (req : Request) (res : Res) :
  (exists code,
      answered (send_invite_email cfg sendMail req res) code
        (error_body "Unauthorized"))
  <->
  present (INVITE_EMAIL_API_KEY cfg) = true
  /\ req_get req "x-api-key" <> INVITE_EMAIL_API_KEY cfg.
Proof.
  split.
  - intros (code & answer & Ho & _ & Hb).
    assert (Hauth : unauthorized cfg req = true).
    { destruct (send_invite_email_cases cfg sendMail req res)
        as [Ha E | _ _ E | _ _ _ E | _ _ _ _ E | e _ _ _ _ _ E
           | transport to bodies _ _ _ _ _ _ _ E];
        [exact Ha | | | | |];
        rewrite E in Ho; simpl in Ho; try discriminate;
        injection Ho as <-; exfalso; revert Hb;
        unfold delivery_response, json; simpl;
        try destruct (sendMail _ _); simpl; discriminate. }
    destruct (present (INVITE_EMAIL_API_KEY cfg)) eqn:Hk.
    + split; [reflexivity |]. intros Heq.
      assert (unauthorized cfg req = false)
        by (apply unauthorized_false_iff; now right).
      congruence.
    + assert (unauthorized cfg req = false)
        by (apply unauthorized_false_iff; now left).
      congruence.
  - intros [Hk Hne]. exists 401.
    rewrite (unauthorized_run _ _ _ _ (unauthorized_true _ _ Hk Hne)).
    apply answered_respond.
Qed.

(** X16: behind the API-key guard, a request without a parsed body, with
    an array as body, or with an [email] or a [link] that is not a JSON
    string is a bad request: 400, and nothing is sent. *)
Theorem ill_shaped_body_is_400 (cfg : Config) (sendMail : Dispatcher)
    (req : Request) (res : Res) :
  unauthorized cfg req = false ->
  reqBody req = BodyAbsent
  \/ (exists items, reqBody req = BodyArray items)
  \/ is_string (field (payload_of (reqBody req)) "email") = false
  \/ is_string (field (payload_of (reqBody req)) "link") = false ->
  answered (send_invite_email cfg sendMail req res) 400
    (error_body bad_request_text)
  /\ sent (send_invite_email cfg sendMail req res) = [].
Proof.
  intros Hauth Hshape.
  assert (Hv : valid_email (reqBody req) && valid_link (reqBody req) = false).
  { unfold valid_email, valid_link.
    destruct Hshape as [-> | [[items ->] | [He | Hl]]]; try reflexivity.
    - now rewrite (proj1 (non_string_fields_are_invalid _ He)).
    - rewrite (proj2 (non_string_fields_are_invalid _ Hl)). simpl.
      apply andb_false_r. }
  destruct (send_invite_email_cases cfg sendMail req res)
    as [H _ | _ _ -> | _ H | _ H | ? _ H | ? ? ? _ H]; try congruence.
  split; [apply answered_respond | reflexivity].
Qed.

Lemma ill_shaped_body_is_400_witness :
  answered
    (send_invite_email cfg_open delivers
       (post ∅ (BodyArray [JStr "ann@example.com"; JStr "https://app.test"]))
       fresh_res)
    400 (error_body bad_request_text)
  /\ sent
       (send_invite_email cfg_open delivers
          (post ∅ (BodyArray [JStr "ann@example.com"; JStr "https://app.test"]))
          fresh_res)
     = [].
Proof.
  apply (ill_shaped_body_is_400 cfg_open delivers
           (post ∅ (BodyArray [JStr "ann@example.com"; JStr "https://app.test"]))
           fresh_res).
  - reflexivity.
  - right. left. eexists. reflexivity.
Defined.

(** ** The composer *)

Lemma trim_of_trim_nonempty (s : string) :
  Str.trim (if Str.is_empty (Str.trim s) then "there" else Str.trim s)
  = (if Str.is_empty (Str.trim s) then "there" else Str.trim s).
Proof.
  destruct (Str.is_empty (Str.trim s)); [reflexivity | apply trim_idempotent].
Qed.

Lemma recipientName_of_clean (first last : jsval) (name : string) :
  recipientName_of first last = Ok name -> name <> "" /\ Str.trim name = name.
Proof.
  unfold recipientName_of.
  destruct (join_values _ _ _) as [joined|]; [| discriminate].
  simpl. intros [= <-]. split.
  - destruct (Str.is_empty (Str.trim joined)) eqn:H;
      [discriminate | now apply is_empty_false].
  - apply trim_of_trim_nonempty.
Qed.

Lemma subjectOrg_of_clean (org : jsval) (name : string) :
  subjectOrg_of org = Ok name -> name <> "" /\ Str.trim name = name.
Proof.
  unfold subjectOrg_of.
  destruct (truthy org); [| intros [= <-]; split; [discriminate | reflexivity]].
  destruct org as [| | b | r | s | items | props]; try discriminate.
  intros [= <-]. split.
  - destruct (Str.is_empty (Str.trim s)) eqn:H;
      [discriminate | now apply is_empty_false].
  - destruct (Str.is_empty (Str.trim s));
      [reflexivity | apply trim_idempotent].
Qed.

(** X17: whatever the composer returns, the name it greets and the
    organization it names are never empty and carry no white space at
    either end (they fall back to ["there"] and ["Attendance Platform"]),
    and the subject is ["You're invited to "] followed by that
    organization. *)
Theorem composer_labels_are_clean (input : ComposerInput)
    (bodies : InviteBodies) :
  buildInviteBodies input = Ok bodies ->
  exists name org label,
    name <> "" /\ Str.trim name = name
    /\ org <> "" /\ Str.trim org = org
    /\ subject bodies = "You're invited to " +:+ org
    /\ textBody bodies = text_template name org label (link input)
    /\ htmlBody bodies = html_template name org label (link input).
Proof.
  intros (name & org & label & Hn & Ho & _ & Hs & Ht & Hh)%buildInviteBodies_shape.
  exists name, org, label.
  destruct (recipientName_of_clean _ _ _ Hn) as [Hn1 Hn2].
  destruct (subjectOrg_of_clean _ _ Ho) as [Ho1 Ho2].
  repeat (split; [assumption |]). exact Hh.
Qed.

Lemma composer_labels_are_clean_witness :
  exists name org label,
    name <> "" /\ Str.trim name = name
    /\ org <> "" /\ Str.trim org = org
    /\ subject team_lead_bodies = "You're invited to " +:+ org
    /\ textBody team_lead_bodies
       = text_template name org label (link team_lead_input)
    /\ htmlBody team_lead_bodies
       = html_template name org label (link team_lead_input).
Proof.
  apply (composer_labels_are_clean team_lead_input team_lead_bodies).
  reflexivity.
Defined.

(** X18: the role label never holds an underscore, whatever the role is:
    a number, an array or a string are converted first and every underscore
    of the result becomes a space. *)
Theorem role_label_has_no_underscore (r : jsval) (label : string) :
  roleLabel_of r = Ok label -> Str.includes label "_"%char = false.
Proof.
  unfold roleLabel_of. destruct (truthy r); [| now intros [= <-]].
  destruct (ToString r) as [text|]; [| discriminate].
  simpl. intros [= <-]. apply replace_all_removes. discriminate.
Qed.

Lemma role_label_has_no_underscore_witness :
  Str.includes "a b,c d" "_"%char = false.
Proof.
  apply (role_label_has_no_underscore (JArr [JStr "a_b"; JStr "c_d"]) "a b,c d").
  reflexivity.
Defined.

Lemma blank_append (a b : string) :
  blank (a +:+ b) = blank a && blank b.
Proof.
  induction a as [|c a IH]; simpl; [reflexivity |].
  now rewrite IH, andb_assoc.
Qed.

(** X19: when each of the two names is absent, falsy or a string of white
    space only, the composer greets ["there"]. *)
Theorem blank_names_greet_there (first last : jsval) :
  truthy first = false \/ (exists s, first = JStr s /\ blank s = true) ->
  truthy last = false \/ (exists s, last = JStr s /\ blank s = true) ->
  recipientName_of first last = Ok "there".
Proof.
  intros Hf Hl. unfold recipientName_of.
  assert (Hj : exists joined,
             join_values ToString " " (List.filter truthy [first; last])
             = Ok joined /\ blank joined = true).
  { simpl.
    destruct Hf as [Hf | (f & -> & Hf)], Hl as [Hl | (l & -> & Hl)].
    - rewrite Hf, Hl. now exists "".
    - rewrite Hf. destruct (truthy (JStr l)); [now exists l | now exists ""].
    - rewrite Hl. destruct (truthy (JStr f)); [now exists f | now exists ""].
    - destruct (truthy (JStr f)), (truthy (JStr l)); simpl.
      + exists (f +:+ " " +:+ l). split; [reflexivity |].
        rewrite !blank_append, Hf, Hl. reflexivity.
      + now exists f.
      + now exists l.
      + now exists "". }
  destruct Hj as (joined & -> & Hb). simpl.
  now rewrite (trim_blank _ Hb).
Qed.

Lemma blank_names_greet_there_witness :
  recipientName_of (JStr "  ") JNull = Ok "there".
Proof.
  apply (blank_names_greet_there (JStr "  ") JNull).
  - right. exists "  ". split; reflexivity.
  - left. reflexivity.
Defined.

Lemma html_template_has_org (name org label link : string) :
  Str.occurs_in ("<strong>" +:+ org +:+ "</strong>")
    (html_template name org label link).
Proof.
  unfold html_template.
  apply (occurs_in_intro
           (Str.LF +:+ "    <p>Hi " +:+ name +:+ ",</p>" +:+ Str.LF
            +:+ "    <p>You've been invited to join ")
           ("<strong>" +:+ org +:+ "</strong>")
           (" as a <strong>" +:+ label +:+ "</strong>.</p>" +:+ Str.LF
            +:+ "    <p><a href=" +:+ Str.DQ +:+ link +:+ Str.DQ
            +:+ " target=" +:+ Str.DQ +:+ "_blank" +:+ Str.DQ
            +:+ " rel=" +:+ Str.DQ +:+ "noopener noreferrer" +:+ Str.DQ
            +:+ ">Click here to finish registration</a>.</p>" +:+ Str.LF
            +:+ "    <p>If you were not expecting this email, you can ignore it.</p>"
            +:+ Str.LF +:+ "  ")).
  rewrite !append_assoc. reflexivity.
Qed.

(** X20: an organization name that is a string with something in it goes
    into the subject and into the HTML body as it is, trimmed and nothing
    else: no character of it is escaped or dropped. *)
Theorem organization_is_copied_verbatim (input : ComposerInput)
    (bodies : InviteBodies) (name : string) :
  buildInviteBodies input = Ok bodies ->
  organizationName input = JStr name ->
  Str.trim name <> "" ->
  subject bodies = "You're invited to " +:+ Str.trim name
  /\ Str.occurs_in ("<strong>" +:+ Str.trim name +:+ "</strong>")
       (htmlBody bodies).
Proof.
  intros (n & org & label & _ & Ho & _ & Hs & _ & Hh)%buildInviteBodies_shape
    Hname Hne.
  rewrite Hname, subjectOrg_of_string in Ho.
  apply is_empty_false in Hne. rewrite Hne in Ho. injection Ho as <-.
  rewrite Hs, Hh. split; [reflexivity | apply html_template_has_org].
Qed.

Lemma organization_is_copied_verbatim_witness :
  subject_line "<b>Acme</b>" = "You're invited to " +:+ Str.trim " <b>Acme</b> "
  /\ Str.occurs_in ("<strong>" +:+ Str.trim " <b>Acme</b> " +:+ "</strong>")
       (html_template "there" "<b>Acme</b>" "member" "https://app.test").
Proof.
  apply (organization_is_copied_verbatim
           {| firstName := JUndefined; lastName := JUndefined;
              role := JUndefined; organizationName := JStr " <b>Acme</b> ";
              link := "https://app.test" |}
           {| subject := subject_line "<b>Acme</b>";
              textBody :=
                text_template "there" "<b>Acme</b>" "member" "https://app.test";
              htmlBody :=
                html_template "there" "<b>Acme</b>" "member" "https://app.test" |}
           " <b>Acme</b> ").
  - reflexivity.
  - reflexivity.
  - discriminate.
Defined.

(** ** Address extraction and formatting *)

(** X21: [extractEmail] returns an address only for a string; the address
    is never empty, holds an ['@'] and has no upper-case letter. *)
Theorem extractEmail_result (value : jsval) (email : string) :
  extractEmail value = Some email ->
  is_string value = true
  /\ email <> ""
  /\ Str.includes email "@"%char = true
  /\ Str.toLowerCase email = email.
Proof.
  intros H. split; [destruct value; try discriminate H; reflexivity |].
  split; [apply is_empty_false; eapply extractEmail_nonempty; exact H |].
  split; [eapply extractEmail_contains_at | eapply extractEmail_lower_case];
    exact H.
Qed.

Lemma extractEmail_result_witness :
  is_string (JStr "John Doe <JOHN@EXAMPLE.com>") = true
  /\ "john@example.com" <> ""
  /\ Str.includes "john@example.com" "@"%char = true
  /\ Str.toLowerCase "john@example.com" = "john@example.com".
Proof.
  apply (extractEmail_result (JStr "John Doe <JOHN@EXAMPLE.com>")
           "john@example.com").
  reflexivity.
Defined.

(** X22: the two copies of [extractEmail] in the file accept the same
    values, and the second returns what the first returns with the white
    space around it removed: they differ exactly when the bracketed portion
    has white space at an end. *)
Theorem extractEmail_v2_is_trimmed (value : jsval) :
  extractEmail_v2 value = Str.trim <$> extractEmail value.
Proof.
  rewrite <- extractEmail_specified_is_trimmed.
  destruct value as [| | b | r | v | items | props]; try reflexivity.
  unfold extractEmail_v2, extractEmail_specified.
  destruct v; reflexivity.
Qed.

Lemma match_angle_without_lt (s : string) :
  Str.includes s "<"%char = false -> Str.match_angle s = None.
Proof.
  induction s as [|c s IH]; [reflexivity |].
  cbn [Str.includes Str.match_angle].
  intros [Hc Hs]%orb_false_elim. rewrite Hc. auto.
Qed.

Lemma match_angle_after_name (name address : string) :
  Str.includes name "<"%char = false ->
  address <> "" ->
  Str.includes address ">"%char = false ->
  Str.match_angle (name +:+ " <" +:+ address +:+ ">") = Some address.
Proof.
  intros Hname Hne Hgt.
  induction name as [|c name IH].
  - change (Str.match_angle
              (String " "%char (String "<"%char (address +:+ String ">"%char "")))
            = Some address).
    cbn [Str.match_angle]. simpl Ascii.eqb.
    rewrite (span_not_gt_append address "" Hgt).
    destruct address; [congruence | reflexivity].
  - cbn [Str.includes] in Hname. apply orb_false_elim in Hname as [Hc Hn].
    change (Str.match_angle (String c (name +:+ " <" +:+ address +:+ ">"))
            = Some address).
    cbn [Str.match_angle]. rewrite Hc. auto.
Qed.

Lemma includes_nonempty (s : string) (c : ascii) :
  Str.includes s c = true -> s <> "".
Proof. destruct s; [discriminate | discriminate]. Qed.

(** X23: formatting then extracting gives the address back in lower case:
    for a display name without ['<'] and an address that holds an ['@'], no
    angle bracket and no white space at its ends, [extractEmail] applied to
    what [formatFrom] builds, with or without a name, returns the
    lower-cased address. *)
Theorem extractEmail_of_formatFrom (name address formatted : string) :
  Str.includes name "<"%char = false ->
  Str.includes address "<"%char = false ->
  Str.includes address ">"%char = false ->
  Str.includes address "@"%char = true ->
  Str.trim address = address ->
  formatFrom name (Some address) = Some formatted ->
  extractEmail (JStr formatted) = Some (Str.toLowerCase address).
Proof.
  intros Hname Hlt Hgt Hat Htrim Hfmt.
  pose proof (includes_nonempty _ _ Hat) as Hne.
  unfold formatFrom in Hfmt.
  apply is_empty_false in Hne. rewrite Hne in Hfmt.
  unfold extractEmail. cbv zeta.
  destruct (Str.is_empty name); cbn [negb] in Hfmt; injection Hfmt as <-.
  - rewrite Htrim, Hne, (match_angle_without_lt _ Hlt).
    now rewrite includes_toLowerCase_at, Hat.
  - pose proof (match_angle_after_name name address Hname
                  (proj1 (is_empty_false _) Hne) Hgt) as Hm.
    change (name +:+ String " "%char (String "<"%char (address +:+ ">")))
      with (name +:+ " <" +:+ address +:+ ">").
    rewrite match_angle_trim, Hm.
    destruct (Str.is_empty (Str.trim (name +:+ " <" +:+ address +:+ ">")))
      eqn:He.
    + apply is_empty_true in He.
      rewrite <- match_angle_trim, He in Hm. discriminate.
    + now rewrite includes_toLowerCase_at, Hat.
Qed.

Lemma extractEmail_of_formatFrom_witness :
  extractEmail (JStr "Attendance Platform <Mailer@App.test>")
  = Some (Str.toLowerCase "Mailer@App.test").
Proof.
  apply (extractEmail_of_formatFrom "Attendance Platform" "Mailer@App.test"
           "Attendance Platform <Mailer@App.test>"); reflexivity.
Defined.

(** ** The derived configuration, continued *)

(** X24: in a configuration the module derives, the transporter exists
    exactly when both [SMTP_USER] and [SMTP_PASS] are set and non-empty, so
    the handler's credentials check fails exactly when there is no
    transporter: its tests of the user and of the password never decide
    anything on their own. *)
Theorem credentials_check_is_transporter_check (env : gmap string string) :
  (transporter (load_config env) = None
   <-> smtp_unconfigured (load_config env) = true)
  /\ smtp_unconfigured (load_config env)
     = negb (present (env !! "SMTP_USER") && present (env !! "SMTP_PASS")).
Proof.
  pose proof (load_config_transporter env) as Ht.
  assert (Hu : present (SMTP_USER (load_config env)) = present (env !! "SMTP_USER"))
    by apply or_else_none_present.
  assert (Hp : present (SMTP_PASS (load_config env)) = present (env !! "SMTP_PASS"))
    by apply or_else_none_present.
  unfold smtp_unconfigured. rewrite Hu, Hp in *.
  destruct (transporter (load_config env)) as [t|];
    destruct (present (env !! "SMTP_USER")), (present (env !! "SMTP_PASS"));
    simpl in *; try discriminate; (split; [split; congruence | reflexivity]).
Qed.

Lemma parse_origins_clean (raw : option string) :
  Forall (fun origin => origin <> "" /\ Str.trim origin = origin)
    (parse_origins raw).
Proof.
  unfold parse_origins.
  induction (Str.split ","%char (default "*" (or_else raw None)))
    as [|piece pieces IH]; simpl; [constructor |].
  destruct (Str.is_empty (Str.trim piece)) eqn:He; simpl; [exact IH |].
  constructor; [| exact IH].
  split; [now apply is_empty_false | apply trim_idempotent].
Qed.

Lemma includes_string_In (l : list string) (x : string) :
  includes_string l x = true <-> In x l.
Proof.
  unfold includes_string. rewrite existsb_exists. split.
  - intros (y & Hy & ->%String.eqb_eq). exact Hy.
  - intros H. exists x. split; [exact H | apply String.eqb_refl].
Qed.

(** X25: the allow-list the module derives has no empty entry and no
    entry with white space at an end; wildcard mode is on exactly when one
    entry is a lone star; and an unset or empty [INVITE_ALLOWED_ORIGINS]
    means wildcard mode. *)
Theorem allowed_origins_are_clean (env : gmap string string) :
  Forall (fun origin => origin <> "" /\ Str.trim origin = origin)
    (INVITE_ALLOWED_ORIGINS (load_config env))
  /\ (allowAnyOrigin (load_config env) = true
      <-> In "*" (INVITE_ALLOWED_ORIGINS (load_config env)))
  /\ (present (env !! "INVITE_ALLOWED_ORIGINS") = false
      -> allowAnyOrigin (load_config env) = true).
Proof.
  split; [apply parse_origins_clean |].
  split; [apply includes_string_In |].
  intros Hunset. simpl. unfold parse_origins.
  destruct (env !! "INVITE_ALLOWED_ORIGINS") as [raw|]; simpl in *;
    [| reflexivity].
  apply negb_false_iff in Hunset. now rewrite Hunset.
Qed.
